(** * gen_api.py: PHP API documentation generator

    A shallow embedding of [scripts/gen_api.py] (the regex based extractor
    [PHPDocParser], the markdown renderer and the directory driver of
    [APIDocumentationGenerator], and [main]) together with the properties
    of its specification.

    Modelling conventions.
    - A Python [str] is a [string]; a character is an 8-bit code point
      (U+0000..U+00FF) and the classes [\s], [\w] and [str.strip] follow
      Python's Unicode tables on that range.
    - Offsets into a string are [nat]; the [-1] sentinel of [str.find] and
      [str.rfind] is [None].
    - [re.finditer] is modelled by a backtracking matcher that returns the
      successes of a pattern in the order in which Python's engine explores
      them; the first success is the match.
    - The file system, the console and I/O failures are an explicit world
      that is threaded through the driver. *)

From Stdlib Require Import String Ascii List Arith Lia Bool.
From stdpp Require Import gmap strings list fin_maps.
Import ListNotations.

Local Open Scope string_scope.
Local Open Scope list_scope.
Local Open Scope nat_scope.

#[local] Arguments String.append !s1 s2 : simpl nomatch.

(** ** Python string primitives *)

Module Py.

(** Code point of a character. *)
Definition ord (a : ascii) : nat := nat_of_ascii a.

(** [str.isspace] on one character, also the regex class [\s]. *)
Definition isspace (a : ascii) : bool :=
  let n := ord a in
  ((9 <=? n) && (n <=? 13)) || ((28 <=? n) && (n <=? 32))
  || (n =? 133) || (n =? 160).

(** Alphanumeric characters in the sense of [str.isalnum]. *)
Definition isalnum (a : ascii) : bool :=
  let n := ord a in
  ((48 <=? n) && (n <=? 57)) || ((65 <=? n) && (n <=? 90))
  || ((97 <=? n) && (n <=? 122))
  || (n =? 170) || (n =? 178) || (n =? 179) || (n =? 181) || (n =? 185)
  || (n =? 186) || ((188 <=? n) && (n <=? 190))
  || ((192 <=? n) && (n <=? 214)) || ((216 <=? n) && (n <=? 246))
  || ((248 <=? n) && (n <=? 255)).

(** The regex class [\w]. *)
Definition isword (a : ascii) : bool := isalnum a || (ord a =? 95).

(** [s[n:]] *)
Fixpoint drop (n : nat) (s : string) : string :=
  match n, s with
  | 0, _ => s
  | S _, EmptyString => EmptyString
  | S n', String _ s' => drop n' s'
  end.

(** [s[:n]] *)
Fixpoint take (n : nat) (s : string) : string :=
  match n, s with
  | 0, _ => EmptyString
  | S _, EmptyString => EmptyString
  | S n', String a s' => String a (take n' s')
  end.

(** [s[a:b]] for non-negative [a], [b]. *)
Definition slice (a b : nat) (s : string) : string := take (b - a) (drop a s).

(** [s.startswith(pre)] *)
Fixpoint startswith (pre s : string) : bool :=
  match pre, s with
  | EmptyString, _ => true
  | String _ _, EmptyString => false
  | String a pre', String b s' => Ascii.eqb a b && startswith pre' s'
  end.

(** [s.endswith(suf)] *)
Definition endswith (suf s : string) : bool :=
  (String.length suf <=? String.length s)
  && String.eqb (drop (String.length s - String.length suf) s) suf.

(** Lowest offset of [sub] in [s]. *)
Fixpoint find0 (sub s : string) {struct s} : option nat :=
  if startswith sub s then Some 0
  else match s with
       | EmptyString => None
       | String _ s' => option_map S (find0 sub s')
       end.

(** [s.find(sub, start)] *)
Definition find (sub s : string) (start : nat) : option nat :=
  if start <=? String.length s
  then option_map (Nat.add start) (find0 sub (drop start s))
  else None.

(** Highest offset of [sub] in [s]. *)
Fixpoint rfind0 (sub s : string) {struct s} : option nat :=
  match s with
  | EmptyString => if startswith sub s then Some 0 else None
  | String _ s' =>
      match rfind0 sub s' with
      | Some i => Some (S i)
      | None => if startswith sub s then Some 0 else None
      end
  end.

(** [s.rfind(sub, 0, stop)] *)
Definition rfind (sub s : string) (stop : nat) : option nat :=
  rfind0 sub (take stop s).

(** [sub in s] *)
Definition contains (sub s : string) : bool :=
  match find0 sub s with Some _ => true | None => false end.

(** [s.lstrip()] *)
Fixpoint lstrip (s : string) : string :=
  match s with
  | EmptyString => EmptyString
  | String a s' => if isspace a then lstrip s' else s
  end.

(** [s.rstrip()] *)
Fixpoint rstrip (s : string) : string :=
  match s with
  | EmptyString => EmptyString
  | String a s' =>
      match rstrip s' with
      | EmptyString => if isspace a then EmptyString else String a EmptyString
      | r => String a r
      end
  end.

(** [s.strip()] *)
Definition strip (s : string) : string := rstrip (lstrip s).

(** [s.split(c)] for a separator of one character. *)
Fixpoint split (c : ascii) (s : string) : list string :=
  match s with
  | EmptyString => [EmptyString]
  | String a s' =>
      if Ascii.eqb a c then EmptyString :: split c s'
      else match split c s' with
           | h :: t => String a h :: t
           | [] => [String a EmptyString]
           end
  end.

(** [sep.join(l)] *)
Fixpoint join (sep : string) (l : list string) : string :=
  match l with
  | [] => EmptyString
  | [x] => x
  | x :: l' => x +:+ sep +:+ join sep l'
  end.

(** Truth value of a string: [bool(s)]. *)
Definition truthy (s : string) : bool :=
  match s with EmptyString => false | _ => true end.

End Py.

(** ** Regular expressions *)

Module Re.

(** Character classes that occur in the patterns of the parser. *)
Inductive cls : Type :=
  | CSpace                      (* \s *)
  | CWord                       (* \w *)
  | COneOf (l : list ascii)     (* [...] *)
  | CNoneOf (l : list ascii).   (* [^...] *)

Definition mem (a : ascii) (l : list ascii) : bool :=
  existsb (Ascii.eqb a) l.

Definition in_cls (c : cls) (a : ascii) : bool :=
  match c with
  | CSpace => Py.isspace a
  | CWord => Py.isword a
  | COneOf l => mem a l
  | CNoneOf l => negb (mem a l)
  end.

(** The fragment of Python's pattern language used by the parser: literals,
    classes, greedy repetition of a class, sequence, ordered alternation,
    greedy optional groups and numbered capture groups. *)
Inductive regex : Type :=
  | Lit (s : string)
  | One (c : cls)
  | Star (c : cls)
  | Plus (c : cls)
  | Seq (r1 r2 : regex)
  | Alt (r1 r2 : regex)
  | Opt (r : regex)
  | Group (n : nat) (r : regex).

(** Captured groups, the most recent binding first. *)
Definition captures : Type := list (nat * string).

Fixpoint lookup_group (n : nat) (g : captures) : option string :=
  match g with
  | [] => None
  | (k, v) :: g' => if k =? n then Some v else lookup_group n g'
  end.

(** Length of the longest prefix of [s] inside the class. *)
Fixpoint run (c : cls) (s : string) : nat :=
  match s with
  | EmptyString => 0
  | String a s' => if in_cls c a then S (run c s') else 0
  end.

(** [hi, hi-1, ..., lo]: the lengths a greedy repetition tries, in order. *)
Definition downto (hi lo : nat) : list nat := rev (seq lo (S hi - lo)).

(** All ways [r] matches a prefix of [s], in backtracking order; each
    success is the number of characters consumed and the groups set. *)
Fixpoint rmatch (r : regex) (s : string) (g : captures)
  : list (nat * captures) :=
  match r with
  | Lit l => if Py.startswith l s then [(String.length l, g)] else []
  | One c =>
      match s with
      | String a _ => if in_cls c a then [(1, g)] else []
      | EmptyString => []
      end
  | Star c => map (fun n => (n, g)) (downto (run c s) 0)
  | Plus c => map (fun n => (n, g)) (downto (run c s) 1)
  | Seq r1 r2 =>
      flat_map (fun '(n1, g1) =>
                  map (fun '(n2, g2) => (n1 + n2, g2))
                      (rmatch r2 (Py.drop n1 s) g1))
               (rmatch r1 s g)
  | Alt r1 r2 => rmatch r1 s g ++ rmatch r2 s g
  | Opt r1 => rmatch r1 s g ++ [(0, g)]
  | Group k r1 =>
      map (fun '(n, g1) => (n, (k, Py.take n s) :: g1)) (rmatch r1 s g)
  end.

(** A match object: [m.start()], [m.end()] and the groups. *)
Record rematch : Type := MkMatch {
  m_start : nat;
  m_end : nat;
  m_groups : captures
}.

(** [m.group(n)], [None] when the group did not take part in the match. *)
Definition group (n : nat) (m : rematch) : option string :=
  lookup_group n (m_groups m).

(** The match at the head of [s], if any. *)
Definition match_here (r : regex) (s : string) : option (nat * captures) :=
  head (rmatch r s []).

(** Scan of [re.finditer]: [s] is the text from offset [pos] on and [skip]
    counts the characters still covered by the previous match. *)
Fixpoint scan (r : regex) (s : string) (pos skip : nat) : list rematch :=
  match s with
  | EmptyString =>
      match skip, match_here r s with
      | 0, Some (n, g) => [MkMatch pos (pos + n) g]
      | _, _ => []
      end
  | String _ s' =>
      match skip with
      | S k => scan r s' (S pos) k
      | 0 =>
          match match_here r s with
          | Some (n, g) => MkMatch pos (pos + n) g :: scan r s' (S pos) (n - 1)
          | None => scan r s' (S pos) 0
          end
      end
  end.

(** [re.finditer(r, s)]: the non-overlapping matches, left to right. *)
Definition finditer (r : regex) (s : string) : list rematch := scan r s 0 0.

End Re.

Import Re.

Declare Scope regex_scope.
Delimit Scope regex_scope with re.
Notation "r1 @@ r2" := (Seq r1 r2) (at level 60, right associativity) : regex_scope.

(** ** The extractor: [PHPDocParser] *)

(** A group that always takes part in a successful match. *)
Definition group_str (n : nat) (m : rematch) : string :=
  default EmptyString (group n m).

(** [m.group(n) if m.group(n) else None] *)
Definition group_opt (n : nat) (m : rematch) : option string :=
  match group n m with
  | Some s => if Py.truthy s then Some s else None
  | None => None
  end.

(** [[i.strip() for i in m.group(n).split(',')] if m.group(n) else []] *)
Definition group_names (n : nat) (m : rematch) : list string :=
  match group_opt n m with
  | Some s => map Py.strip (Py.split "," s)
  | None => []
  end.

Record method_info : Type := MkMethod {
  method_name : string;
  method_return_type : option string;
  method_docstring : string
}.

Record property_info : Type := MkProperty {
  property_name : string;
  property_docstring : string
}.

Record case_info : Type := MkCase {
  case_name : string;
  case_docstring : string
}.

Record class_info : Type := MkClass {
  class_name : string;
  class_extends : option string;
  class_implements : list string;
  class_docstring : string;
  class_methods : list method_info;
  class_properties : list property_info
}.

Record interface_info : Type := MkInterface {
  interface_name : string;
  interface_extends : list string;
  interface_docstring : string;
  interface_methods : list method_info
}.

Record enum_info : Type := MkEnum {
  enum_name : string;
  enum_backing_type : option string;
  enum_docstring : string;
  enum_cases : list case_info
}.

(** An entry of the lists that the parser declares but never fills. *)
Definition dict : Type := list (string * string).

Record parsed : Type := MkParsed {
  classes : list class_info;
  interfaces : list interface_info;
  enums : list enum_info;
  functions : list dict;
  constants : list dict
}.

Section Patterns.
Local Open Scope regex_scope.

(** [class\s+(\w+)(?:\s+extends\s+(\w+))?(?:\s+implements\s+([^{]+))?\s*\{] *)
Definition class_pattern : regex :=
  Lit "class" @@ Plus CSpace @@ Group 1 (Plus CWord)
  @@ Opt (Plus CSpace @@ Lit "extends" @@ Plus CSpace @@ Group 2 (Plus CWord))
  @@ Opt (Plus CSpace @@ Lit "implements" @@ Plus CSpace
          @@ Group 3 (Plus (CNoneOf ["{"%char])))
  @@ Star CSpace @@ Lit "{".

(** [interface\s+(\w+)(?:\s+extends\s+([^{]+))?\s*\{] *)
Definition interface_pattern : regex :=
  Lit "interface" @@ Plus CSpace @@ Group 1 (Plus CWord)
  @@ Opt (Plus CSpace @@ Lit "extends" @@ Plus CSpace
          @@ Group 2 (Plus (CNoneOf ["{"%char])))
  @@ Star CSpace @@ Lit "{".

(** [enum\s+(\w+)(?:\s+:\s+(\w+))?\s*\{] *)
Definition enum_pattern : regex :=
  Lit "enum" @@ Plus CSpace @@ Group 1 (Plus CWord)
  @@ Opt (Plus CSpace @@ Lit ":" @@ Plus CSpace @@ Group 2 (Plus CWord))
  @@ Star CSpace @@ Lit "{".

(** [(?:public|private|protected)?\s*(?:static\s+)?function\s+(\w+)\s*\([^)]*\)\s*(?::\s*(\w+))?\s*\{] *)
Definition method_pattern : regex :=
  Opt (Alt (Lit "public") (Alt (Lit "private") (Lit "protected")))
  @@ Star CSpace @@ Opt (Lit "static" @@ Plus CSpace)
  @@ Lit "function" @@ Plus CSpace @@ Group 1 (Plus CWord) @@ Star CSpace
  @@ Lit "(" @@ Star (CNoneOf [")"%char]) @@ Lit ")" @@ Star CSpace
  @@ Opt (Lit ":" @@ Star CSpace @@ Group 2 (Plus CWord))
  @@ Star CSpace @@ Lit "{".

(** [(?:public|private|protected)?\s*(?:readonly\s+)?(?:\w+\s+)?\$(\w+)(?:\s*=\s*[^;]+)?;] *)
Definition property_pattern : regex :=
  Opt (Alt (Lit "public") (Alt (Lit "private") (Lit "protected")))
  @@ Star CSpace @@ Opt (Lit "readonly" @@ Plus CSpace)
  @@ Opt (Plus CWord @@ Plus CSpace)
  @@ Lit "$" @@ Group 1 (Plus CWord)
  @@ Opt (Star CSpace @@ Lit "=" @@ Star CSpace @@ Plus (CNoneOf [";"%char]))
  @@ Lit ";".

(** [case\s+(\w+)(?:\s*=\s*[^,;]+)?[,;]] *)
Definition case_pattern : regex :=
  Lit "case" @@ Plus CSpace @@ Group 1 (Plus CWord)
  @@ Opt (Star CSpace @@ Lit "=" @@ Star CSpace
          @@ Plus (CNoneOf [","%char; ";"%char]))
  @@ One (COneOf [","%char; ";"%char]).

End Patterns.

(** Extract PHPDoc comment before a given position. *)
Definition _extract_phpdoc_before (content : string) (position : nat) : string :=
  match Py.rfind "/**" content position with
  | None => EmptyString
  | Some start =>
      match Py.find "*/" content start with
      | None => EmptyString
      | Some stop => Py.slice start (stop + 2) content
      end
  end.

(** Body of the loop of [_extract_methods]. *)
Definition method_of_match (content : string) (class_start : nat)
    (m : rematch) : method_info :=
  let actual_pos := class_start + m_start m in
  MkMethod (group_str 1 m) (group_opt 2 m)
           (_extract_phpdoc_before content actual_pos).

(** Extract methods from a class or interface. *)
Definition _extract_methods (content : string) (class_start class_end : nat)
  : list method_info :=
  map (method_of_match content class_start)
      (finditer method_pattern (Py.slice class_start class_end content)).

(** Body of the loop of [_extract_properties]. *)
Definition property_of_match (content : string) (class_start : nat)
    (m : rematch) : property_info :=
  let actual_pos := class_start + m_start m in
  MkProperty (group_str 1 m) (_extract_phpdoc_before content actual_pos).

(** Extract properties from a class. *)
Definition _extract_properties (content : string) (class_start class_end : nat)
  : list property_info :=
  map (property_of_match content class_start)
      (finditer property_pattern (Py.slice class_start class_end content)).

(** Body of the loop of [_extract_enum_cases]. *)
Definition case_of_match (content : string) (enum_start : nat)
    (m : rematch) : case_info :=
  let actual_pos := enum_start + m_start m in
  MkCase (group_str 1 m) (_extract_phpdoc_before content actual_pos).

(** Extract cases from an enum. *)
Definition _extract_enum_cases (content : string) (enum_start enum_end : nat)
  : list case_info :=
  map (case_of_match content enum_start)
      (finditer case_pattern (Py.slice enum_start enum_end content)).

(** Body of the three loops of [_parse_content]. *)
Definition class_of_match (content : string) (m : rematch) : class_info :=
  MkClass (group_str 1 m) (group_opt 2 m) (group_names 3 m)
          (_extract_phpdoc_before content (m_start m))
          (_extract_methods content (m_start m) (m_end m))
          (_extract_properties content (m_start m) (m_end m)).

Definition interface_of_match (content : string) (m : rematch)
  : interface_info :=
  MkInterface (group_str 1 m) (group_names 2 m)
              (_extract_phpdoc_before content (m_start m))
              (_extract_methods content (m_start m) (m_end m)).

Definition enum_of_match (content : string) (m : rematch) : enum_info :=
  MkEnum (group_str 1 m) (group_opt 2 m)
         (_extract_phpdoc_before content (m_start m))
         (_extract_enum_cases content (m_start m) (m_end m)).

(** Parse PHP content and extract class/method documentation. *)
Definition _parse_content (content : string) : parsed :=
  MkParsed (map (class_of_match content) (finditer class_pattern content))
           (map (interface_of_match content)
                (finditer interface_pattern content))
           (map (enum_of_match content) (finditer enum_pattern content))
           [] [].

(** ** The renderer *)

Definition nl : string := String (ascii_of_nat 10) EmptyString.
Definition nl2 : string := nl +:+ nl.

(** The character ['\n']. *)
Definition newline : ascii := ascii_of_nat 10.

(** A line survives when it is non-empty and does not start with [*]. *)
Definition keep_line (line : string) : bool :=
  Py.truthy line && negb (Py.startswith "*" line).

(** Format PHPDoc comment as markdown. *)
Definition _format_phpdoc (phpdoc : string) : string :=
  if negb (Py.truthy phpdoc) then EmptyString
  else
    let content := Py.strip phpdoc in
    let content :=
      if Py.startswith "/**" content then Py.drop 3 content else content in
    let content :=
      if Py.endswith "*/" content
      then Py.take (String.length content - 2) content else content in
    let lines := map Py.strip (Py.split newline content) in
    let lines := List.filter (fun line => keep_line line) lines in
    Py.join nl lines.

(** [content += self._format_phpdoc(doc) + "\n\n"] under [if doc]. *)
Definition add_doc (content doc : string) : string :=
  if Py.truthy doc then content +:+ _format_phpdoc doc +:+ nl2 else content.

(** [', '.join([f'`{i}`' for i in names])] *)
Definition backticked (names : list string) : string :=
  Py.join ", " (map (fun i => "`" +:+ i +:+ "`") names).

(** Truthy optional string. *)
Definition some_truthy (o : option string) : option string :=
  match o with
  | Some s => if Py.truthy s then Some s else None
  | None => None
  end.

(** One step of the method loop of the class and interface renderers. *)
Definition add_method (content : string) (m : method_info) : string :=
  let content := content +:+ "### " +:+ method_name m +:+ "()" +:+ nl2 in
  let content := add_doc content (method_docstring m) in
  match some_truthy (method_return_type m) with
  | Some t => content +:+ "**Returns:** `" +:+ t +:+ "`" +:+ nl2
  | None => content
  end.

Definition add_methods (content : string) (ms : list method_info) : string :=
  match ms with
  | [] => content
  | _ => fold_left add_method ms (content +:+ "## Methods" +:+ nl2)
  end.

Definition add_property (content : string) (p : property_info) : string :=
  add_doc (content +:+ "### $" +:+ property_name p +:+ nl2)
          (property_docstring p).

Definition add_case (content : string) (c : case_info) : string :=
  add_doc (content +:+ "### " +:+ case_name c +:+ nl2) (case_docstring c).

(** The text that [_generate_class_doc] writes. *)
Definition class_doc (c : class_info) : string :=
  let content := "# " +:+ class_name c +:+ nl2 in
  let content := add_doc content (class_docstring c) in
  let content :=
    match some_truthy (class_extends c) with
    | Some e => content +:+ "**Extends:** `" +:+ e +:+ "`" +:+ nl2
    | None => content
    end in
  let content :=
    match class_implements c with
    | [] => content
    | l => content +:+ "**Implements:** " +:+ backticked l +:+ nl2
    end in
  let content := add_methods content (class_methods c) in
  match class_properties c with
  | [] => content
  | ps => fold_left add_property ps (content +:+ "## Properties" +:+ nl2)
  end.

(** The text that [_generate_interface_doc] writes. *)
Definition interface_doc (i : interface_info) : string :=
  let content := "# " +:+ interface_name i +:+ " Interface" +:+ nl2 in
  let content := add_doc content (interface_docstring i) in
  let content :=
    match interface_extends i with
    | [] => content
    | l => content +:+ "**Extends:** " +:+ backticked l +:+ nl2
    end in
  add_methods content (interface_methods i).

(** The text that [_generate_enum_doc] writes. *)
Definition enum_doc (e : enum_info) : string :=
  let content := "# " +:+ enum_name e +:+ " Enum" +:+ nl2 in
  let content := add_doc content (enum_docstring e) in
  let content :=
    match some_truthy (enum_backing_type e) with
    | Some t => content +:+ "**Backing Type:** `" +:+ t +:+ "`" +:+ nl2
    | None => content
    end in
  match enum_cases e with
  | [] => content
  | cs => fold_left add_case cs (content +:+ "## Cases" +:+ nl2)
  end.

(** ** Paths ([pathlib.PurePosixPath]) *)

Record Path : Type := MkPath {
  absolute : bool;
  parts : list string
}.

(** [str(p)] *)
Definition path_str (p : Path) : string :=
  match parts p with
  | [] => if absolute p then "/" else "."
  | l => (if absolute p then "/" else EmptyString) +:+ Py.join "/" l
  end.

(** [Path(s)]: empty and [.] components are dropped (a root of exactly two
    slashes is not distinguished from [/]). *)
Definition mk_path (s : string) : Path :=
  MkPath (Py.startswith "/" s)
         (List.filter (fun c => negb (String.eqb c EmptyString || String.eqb c "."))
                 (Py.split "/" s)).

(** [p / q] for a relative [q]. *)
Definition joinpath (p q : Path) : Path :=
  if absolute q then q else MkPath (absolute p) (parts p ++ parts q).

Fixpoint strip_parts (base l : list string) : option (list string) :=
  match base, l with
  | [], _ => Some l
  | b :: base', x :: l' => if String.eqb b x then strip_parts base' l' else None
  | _ :: _, [] => None
  end.

(** [p.relative_to(base)]; [None] stands for the [ValueError]. *)
Definition relative_to (p base : Path) : option Path :=
  if Bool.eqb (absolute p) (absolute base)
  then option_map (MkPath false) (strip_parts (parts base) (parts p))
  else None.

(** [PurePath.suffix] of a file name. *)
Definition suffix (name : string) : string :=
  match Py.rfind "." name (String.length name) with
  | Some i =>
      if (0 <? i) && (i <? String.length name - 1) then Py.drop i name
      else EmptyString
  | None => EmptyString
  end.

(** The name after [with_suffix(suf)]. *)
Definition name_with_suffix (name suf : string) : string :=
  let old := suffix name in
  if Py.truthy old
  then Py.take (String.length name - String.length old) name +:+ suf
  else name +:+ suf.

(** [p.with_suffix(suf)]; [None] stands for the [ValueError] raised on a
    path with an empty name. *)
Definition with_suffix (p : Path) (suf : string) : option Path :=
  match rev (parts p) with
  | [] => None
  | name :: front =>
      Some (MkPath (absolute p) (rev front ++ [name_with_suffix name suf]))
  end.

(** [p.parent] *)
Definition parent (p : Path) : Path :=
  MkPath (absolute p) (removelast (parts p)).

(** ** The world of the driver *)

(** Exceptions: only the message [str(e)] is ever observed. *)
Inductive exn : Type :=
  | OSError (msg : string)
  | ValueError (msg : string).

Definition exn_str (e : exn) : string :=
  match e with OSError m => m | ValueError m => m end.

(** Observable actions.  [EvWrite src dst text] records a write of [text]
    to [dst] issued while the source file [src] was being processed; the
    [Failed] actions record the steps that raised. *)
Inductive event : Type :=
  | EvRead (path : string)
  | EvReadFailed (path : string) (e : exn)
  | EvMkdir (path : string)
  | EvMkdirFailed (path : string) (e : exn)
  | EvWrite (src dst text : string)
  | EvWriteFailed (src dst : string) (e : exn)
  | EvPrint (line : string).

(** Files on disk by path, the number of I/O steps taken so far, and the
    actions performed so far (oldest first).  A file is held as the text
    that reading it in text mode returns, its line ends already translated
    to line feeds. *)
Record world : Type := MkWorld {
  fs : gmap string string;
  clock : nat;
  trace : list event
}.

Definition emit (ev : event) (w : world) : world :=
  MkWorld (fs w) (clock w) (trace w ++ [ev]).

Definition tick (w : world) : world :=
  MkWorld (fs w) (S (clock w)) (trace w).

(** Computations that may raise and that change the world. *)
Definition M (A : Type) : Type := world -> (exn + A) * world.

#[export] Instance M_ret : MRet M := fun A x w => (inr x, w).
#[export] Instance M_bind : MBind M := fun A B f m w =>
  match m w with
  | (inl e, w') => (inl e, w')
  | (inr x, w') => f x w'
  end.

Definition raise {A : Type} (e : exn) : M A := fun w => (inl e, w).

(** [print(line)] *)
Definition print (line : string) : M unit :=
  fun w => (inr tt, emit (EvPrint line) w).

(** [for x in l: body(x)] *)
Fixpoint for_each {A : Type} (l : list A) (body : A -> M unit) : M unit :=
  match l with
  | [] => mret tt
  | x :: l' => body x ;; for_each l' body
  end.

(** A [None] of a path operation raises [ValueError]. *)
Definition or_value_error {A : Type} (o : option A) (msg : string) : M A :=
  match o with
  | Some x => mret x
  | None => raise (ValueError msg)
  end.

Section Driver.

(** The environment decides which I/O step fails: [fault n] is the
    exception raised by the [n]-th step, if any. *)
Variable fault : nat -> option exn.

(** One I/O step: it fails as a whole when the environment says so, and
    then leaves the files as they were. *)
Definition io {A : Type} (failed : exn -> event) (act : M A) : M A :=
  fun w =>
    match fault (clock w) with
    | Some e => (inl e, emit (failed e) (tick w))
    | None => act (tick w)
    end.

(** [open(p, 'r', encoding='utf-8').read()] *)
Definition read_file (p : Path) : M string :=
  io (EvReadFailed (path_str p))
     (fun w =>
        match fs w !! path_str p with
        | Some content => (inr content, emit (EvRead (path_str p)) w)
        | None =>
            let e := OSError ("[Errno 2] No such file or directory: '"
                              +:+ path_str p +:+ "'") in
            (inl e, emit (EvReadFailed (path_str p) e) w)
        end).

(** [p.mkdir(parents=True, exist_ok=True)] *)
Definition mkdir_parents (p : Path) : M unit :=
  io (EvMkdirFailed (path_str p))
     (fun w => (inr tt, emit (EvMkdir (path_str p)) w)).

(** [open(p, 'w', encoding='utf-8').write(text)] on behalf of [src]. *)
Definition write_file (src p : Path) (text : string) : M unit :=
  io (EvWriteFailed (path_str src) (path_str p))
     (fun w =>
        (inr tt,
         emit (EvWrite (path_str src) (path_str p) text)
              (MkWorld (<[path_str p := text]> (fs w)) (clock w) (trace w)))).

(** Parse a PHP file and extract documentation. *)
Definition parse_file (file_path : Path) : M parsed :=
  content ← read_file file_path;
  mret (_parse_content content).

(** The generator object: [self.src_path] and [self.docs_path]. *)
Variable src_path docs_path : Path.

(** [self.docs_path / php_file.relative_to(self.src_path).with_suffix('.md')] *)
Definition doc_path_of (php_file : Path) : M Path :=
  relative_path ← or_value_error (relative_to php_file src_path)
                     "path is not in the subpath";
  md ← or_value_error (with_suffix relative_path ".md") "has an empty name";
  mret (joinpath docs_path md).

(** Common body of the three [_generate_*_doc] methods. *)
Definition generate_doc (text : string) (php_file : Path) : M unit :=
  doc_path ← doc_path_of php_file;
  mkdir_parents (parent doc_path) ;;
  write_file php_file doc_path text.

(** Generate documentation for a class. *)
Definition _generate_class_doc (c : class_info) (php_file : Path) : M unit :=
  generate_doc (class_doc c) php_file.

(** Generate documentation for an interface. *)
Definition _generate_interface_doc (i : interface_info) (php_file : Path)
  : M unit :=
  generate_doc (interface_doc i) php_file.

(** Generate documentation for an enum. *)
Definition _generate_enum_doc (e : enum_info) (php_file : Path) : M unit :=
  generate_doc (enum_doc e) php_file.

(** The [try] block of [_process_php_file]. *)
Definition process_body (php_file : Path) : M unit :=
  parsed ← parse_file php_file;
  for_each (classes parsed) (fun c => _generate_class_doc c php_file) ;;
  for_each (interfaces parsed) (fun i => _generate_interface_doc i php_file) ;;
  for_each (enums parsed) (fun e => _generate_enum_doc e php_file).

(** The line printed by the [except Exception as e] handler. *)
Definition error_line (php_file : Path) (e : exn) : string :=
  "Error processing " +:+ path_str php_file +:+ ": " +:+ exn_str e.

(** Process a single PHP file and generate documentation. *)
Definition _process_php_file (php_file : Path) : M unit :=
  fun w =>
    match process_body php_file w with
    | (inl e, w') => print (error_line php_file e) w'
    | (inr tt, w') => (inr tt, w')
    end.

Definition skip_patterns : list string :=
  ["/tests/"; "/vendor/"; "/Test.php"; "/test.php"].

(** Check if a file should be skipped. *)
Definition _should_skip_file (file_path : Path) : bool :=
  existsb (fun pattern => Py.contains pattern (path_str file_path))
          skip_patterns.

(** [self.src_path.rglob("*.php")]: the files below the source root whose
    name ends in [.php], in the order of the directory listing.  The model
    lists them in the order of the keys of [fs]; pathlib yields a
    directory's own files before those of its subdirectories, and the files
    of one directory in the order the operating system gives.  Which files
    are listed does not depend on the order; the order only shows in the
    runs on a concrete world. *)
Definition rglob_php (w : world) : list Path :=
  List.filter (fun p =>
            match relative_to p src_path with
            | Some rel =>
                match rev (parts rel) with
                | name :: _ => Py.endswith ".php" name
                | [] => false
                end
            | None => false
            end)
         (map (fun kv => mk_path (fst kv)) (map_to_list (fs w))).

(** Body of the loop of [generate_documentation]. *)
Definition visit (php_file : Path) : M unit :=
  if _should_skip_file php_file then mret tt
  else
    rel ← or_value_error (relative_to php_file src_path)
            "path is not in the subpath";
    print ("Processing " +:+ path_str rel) ;;
    _process_php_file php_file.

(** Generate API documentation for all PHP files. *)
Definition generate_documentation : M unit :=
  print ("Generating API documentation from " +:+ path_str src_path
         +:+ " to " +:+ path_str docs_path) ;;
  mkdir_parents docs_path ;;
  php_files ← (fun w => (inr (rglob_php w), w));
  for_each php_files visit.

End Driver.

Definition usage : string := "Usage: python gen_api.py <src_path> <docs_path>".
Definition banner : string := "API documentation generation complete!".

(** [main()] under the interpreter: the final world and the exit status of
    the process ([sys.exit(1)] and an uncaught exception both give 1). *)
Definition main (fault : nat -> option exn) (argv : list string) (w : world)
  : nat * world :=
  if negb (length argv =? 3) then (1, emit (EvPrint usage) w)
  else
    let src_path := nth 1 argv EmptyString in
    let docs_path := nth 2 argv EmptyString in
    match (generate_documentation fault (mk_path src_path) (mk_path docs_path) ;;
           print banner) w with
    | (inl _, w') => (1, w')
    | (inr _, w') => (0, w')
    end.

(** * Vocabulary of the specification *)

(** ** Occurrences and doc-comment blocks *)

(** [sub] occurs in [s] at offset [i]. *)
Definition occurs_at (sub s : string) (i : nat) : Prop :=
  exists pre post, s = pre +:+ sub +:+ post /\ String.length pre = i.

(** An opener [/**] at offset [s] lies before position [p]: it is inside
    [content[:p]]. *)
Definition opener_before (content : string) (p s : nat) : Prop :=
  occurs_at "/**" content s /\ s + 3 <= p.

(** [s] is the last opener before [p]. *)
Definition last_opener (content : string) (p s : nat) : Prop :=
  opener_before content p s /\
  forall s', opener_before content p s' -> s' <= s.

(** A closer [*/] at offset [e], at or after offset [s]. *)
Definition closer_from (content : string) (s e : nat) : Prop :=
  occurs_at "*/" content e /\ s <= e.

(** [e] is the first closer at or after [s]. *)
Definition first_closer (content : string) (s e : nat) : Prop :=
  closer_from content s e /\
  forall e', closer_from content s e' -> e <= e'.

(** An opener [/**] at offset [s] opens before position [p]. *)
Definition opens_before (content : string) (p s : nat) : Prop :=
  occurs_at "/**" content s /\ s < p.

(** [s] is the most recent opener that opens before [p]. *)
Definition nearest_opener (content : string) (p s : nat) : Prop :=
  opens_before content p s /\
  forall s', opens_before content p s' -> s' <= s.

(** [doc] is the block of the most recent opener before [p]: the text from
    that opener through the first closer after it, delimiters included; it
    is empty when no opener opens before [p] or when the most recent one is
    never closed. *)
Definition attributed (content : string) (p : nat) (doc : string) : Prop :=
  (forall s e,
      nearest_opener content p s -> first_closer content s e ->
      doc = Py.slice s (e + 2) content) /\
  ((forall s, ~ opens_before content p s) -> doc = EmptyString) /\
  (forall s,
      nearest_opener content p s -> (forall e, ~ closer_from content s e) ->
      doc = EmptyString).

(** The character at [p], if any, is not [*]. *)
Definition not_star_at (content : string) (p : nat) : Prop :=
  Py.startswith "*" (Py.drop p content) = false.

(** ** Static analysis of patterns *)

(** The pattern can match the empty string. *)
Fixpoint nullable (r : regex) : bool :=
  match r with
  | Lit l => negb (Py.truthy l)
  | One _ => false
  | Star _ => true
  | Plus _ => false
  | Seq r1 r2 => nullable r1 && nullable r2
  | Alt r1 r2 => nullable r1 || nullable r2
  | Opt _ => true
  | Group _ r1 => nullable r1
  end.

(** The character can start a non-empty match of the pattern. *)
Fixpoint can_start (r : regex) (a : ascii) : bool :=
  match r with
  | Lit l => match l with String b _ => Ascii.eqb b a | EmptyString => false end
  | One c => in_cls c a
  | Star c => in_cls c a
  | Plus c => in_cls c a
  | Seq r1 r2 => can_start r1 a || (nullable r1 && can_start r2 a)
  | Alt r1 r2 => can_start r1 a || can_start r2 a
  | Opt r1 => can_start r1 a
  | Group _ r1 => can_start r1 a
  end.

(** The characters of a string. *)
Fixpoint chars (s : string) : list ascii :=
  match s with
  | EmptyString => []
  | String a s' => a :: chars s'
  end.

(** The character can occur in a match of the pattern. *)
Fixpoint alphabet (r : regex) (a : ascii) : bool :=
  match r with
  | Lit l => mem a (chars l)
  | One c => in_cls c a
  | Star c => in_cls c a
  | Plus c => in_cls c a
  | Seq r1 r2 => alphabet r1 a || alphabet r2 a
  | Alt r1 r2 => alphabet r1 a || alphabet r2 a
  | Opt r1 => alphabet r1 a
  | Group _ r1 => alphabet r1 a
  end.

(** Every character of the string satisfies the test. *)
Fixpoint all_chars (P : ascii -> bool) (s : string) : bool :=
  match s with
  | EmptyString => true
  | String a s' => P a && all_chars P s'
  end.

(** The literal that ends a sequence. *)
Fixpoint final_lit (r : regex) : option string :=
  match r with
  | Lit l => Some l
  | Seq _ r2 => final_lit r2
  | _ => None
  end.

(** The character can occur in a match of the sequence before its final
    literal. *)
Fixpoint body_alphabet (r : regex) (a : ascii) : bool :=
  match r with
  | Seq r1 r2 => alphabet r1 a || body_alphabet r2 a
  | _ => false
  end.

(** Not an opening brace. *)
Definition no_brace (a : ascii) : bool := negb (Ascii.eqb a "{"%char).

(** Neither [,] nor [;]. *)
Definition no_sep (a : ascii) : bool := negb (mem a [","%char; ";"%char]).

(** ** Normalisation in the words of the specification *)

(** A line is discarded when it is empty after trimming or when it, once
    trimmed, begins with [*]. *)
Definition discarded (line : string) : bool :=
  String.eqb (Py.strip line) EmptyString
  || Py.startswith "*" (Py.strip line).

(** The normalisation as the specification words it, written without the
    string primitives of the formatter. *)











(** The text without its first [n] characters, and without its last [n]. *)
Fixpoint skip (n : nat) (s : string) : string :=
  match n, s with
  | S n', String _ s' => skip n' s'
  | _, _ => s
  end.




(** ** Observations on a run of the driver *)

(** The write actions of a trace: source file, destination, text. *)
Fixpoint writes (evs : list event) : list (string * string * string) :=
  match evs with
  | [] => []
  | EvWrite src dst text :: evs' => (src, dst, text) :: writes evs'
  | _ :: evs' => writes evs'
  end.

(** The documents rendered for a parsed file, in processing order. *)
Definition renders (p : parsed) : list string :=
  map class_doc (classes p) ++ map interface_doc (interfaces p)
  ++ map enum_doc (enums p).

(** The text contains the pattern. *)
Definition has_substring (pat s : string) : Prop :=
  exists pre post, s = pre +:+ pat +:+ post.

(** The path is excluded by one of the configured substrings. *)
Definition excluded (path : string) : Prop :=
  exists pat, In pat skip_patterns /\ has_substring pat path.

(** The action touches the source file [path]: it reads it or writes
    output on its behalf, or fails doing so. *)
Definition touches (path : string) (ev : event) : Prop :=
  match ev with
  | EvRead p | EvReadFailed p _ => p = path
  | EvWrite src _ _ | EvWriteFailed src _ _ => src = path
  | EvMkdir _ | EvMkdirFailed _ _ | EvPrint _ => False
  end.

(** Every run of the computation only adds actions that satisfy [P]. *)
Definition emits_only {A : Type} (P : event -> Prop) (m : M A) : Prop :=
  forall w, exists evs, trace (snd (m w)) = trace w ++ evs /\ Forall P evs.

(** ** Example inputs *)

(** A class with a method and a property. *)
Definition point_php : string :=
  "class Point { public $x; public function norm() { } }".

(** A string-backed enum with two cases. *)
Definition status_php : string :=
  "enum Status : string { case Active = 'active'; case Inactive = 'inactive'; }".

(** An unrelated block between a doc-comment and its class. *)
Definition interposed_php : string :=
  "/** Doc of A */ /** unrelated */ class A { }".

(** A documented class followed by an undocumented one. *)
Definition inherited_php : string :=
  "/** Doc of A */ class A { } class B { }".

(** A small source tree: a file with two declarations, a file in a test
    directory, an enum in a sub-directory, a file with one class and files
    the driver ignores. *)
Definition demo_world : world :=
  MkWorld
    (list_to_map
       [("src/A.php", "/** Doc A */ class A extends B { } interface I { } ");
        ("src/tests/T.php", "class T { }");
        ("src/sub/E.php", "enum E : int { case X; }");
        ("src/Z.php", "class Z { }");
        ("src/readme.md", "hello");
        ("other/B.php", "class B {")])
    0 [].

(** The world after [src/A.php] of [demo_world] has been processed. *)
Definition demo_after : world :=
  snd (process_body (fun _ => None) (mk_path "src") (mk_path "docs")
                    (mk_path "src/A.php") demo_world).

(** The second write for [src/A.php] of [demo_world] is refused. *)
Definition write_denied (n : nat) : option exn :=
  if n =? 8 then Some (OSError "[Errno 13] Permission denied: 'docs/A.md'")
  else None.

(** ** Further vocabulary *)

(** A line of rendered documentation: not empty, trimmed, not starting
    with [*]. *)
Definition clean_line (line : string) : Prop :=
  line <> EmptyString /\ Py.strip line = line /\
  Py.startswith "*" line = false.

(** The character does not occur in the string. *)
Definition lacks (c : ascii) (s : string) : bool :=
  all_chars (fun a => negb (Ascii.eqb a c)) s.

(** Every match of the pattern contains the character. *)
Fixpoint needs (r : regex) (a : ascii) : bool :=
  match r with
  | Lit l => mem a (chars l)
  | Seq r1 r2 => needs r1 a || needs r2 a
  | Alt r1 r2 => needs r1 a && needs r2 a
  | Group _ r1 => needs r1 a
  | _ => false
  end.

(** The sub-patterns captured as group [k]. *)
Fixpoint subs (r : regex) (k : nat) : list regex :=
  match r with
  | Seq r1 r2 => subs r1 k ++ subs r2 k
  | Alt r1 r2 => subs r1 k ++ subs r2 k
  | Opt r1 => subs r1 k
  | Group j r1 => (if j =? k then [r1] else []) ++ subs r1 k
  | _ => []
  end.

(** Group [k] is set by every match of the pattern. *)
Fixpoint binds (r : regex) (k : nat) : bool :=
  match r with
  | Seq r1 r2 => binds r1 k || binds r2 k
  | Alt r1 r2 => binds r1 k && binds r2 k
  | Group j r1 => (j =? k) || binds r1 k
  | _ => false
  end.

(** A text that a match of the pattern can consume. *)
Definition text_of (r : regex) (v : string) : Prop :=
  all_chars (alphabet r) v = true /\
  (nullable r = false -> v <> EmptyString).

(** A non-empty string of word characters. *)
Definition identifier (v : string) : Prop :=
  v <> EmptyString /\ all_chars Py.isword v = true.

(** A name of a comma separated list: trimmed, without comma or brace. *)
Definition list_name (v : string) : Prop :=
  Py.strip v = v /\ lacks ","%char v = true /\ lacks "{"%char v = true.

(** The paths of the read attempts of a trace, in order. *)
Fixpoint read_attempts (evs : list event) : list string :=
  match evs with
  | [] => []
  | EvRead p :: evs' => p :: read_attempts evs'
  | EvReadFailed p _ :: evs' => p :: read_attempts evs'
  | _ :: evs' => read_attempts evs'
  end.

(** The action is not a read attempt. *)
Definition no_read (ev : event) : Prop :=
  match ev with
  | EvRead _ | EvReadFailed _ _ => False
  | _ => True
  end.


(** Every run of the computation relates the files before to the files
    after. *)
Definition fs_related {A : Type}
    (R : gmap string string -> gmap string string -> Prop) (m : M A) : Prop :=
  forall w, R (fs w) (fs (snd (m w))).

(** The files whose path does not end in [.md] are the same. *)
Definition same_outside_md (m m' : gmap string string) : Prop :=
  forall p, Py.endswith ".md" p = false -> m' !! p = m !! p.

(** No file disappeared. *)
Definition files_remain (m m' : gmap string string) : Prop :=
  forall p, is_Some (m !! p) -> is_Some (m' !! p).


(** No I/O step fails. *)
Definition no_fault (n : nat) : option exn := None.

(** Concatenation of a list of texts. *)
Definition concat_text (l : list string) : string :=
  fold_right String.append EmptyString l.

(** The paragraph a doc-comment contributes to a document. *)
Definition doc_paragraph (doc : string) : string :=
  if Py.truthy doc then _format_phpdoc doc +:+ nl2 else EmptyString.

(** A line [**label:** value] followed by a blank line, or nothing. *)
Definition optional_line (label : string) (value : option string) : string :=
  match some_truthy value with
  | Some v => "**" +:+ label +:+ ":** `" +:+ v +:+ "`" +:+ nl2
  | None => EmptyString
  end.

(** A line listing back-ticked names, or nothing for an empty list. *)
Definition names_line (label : string) (names : list string) : string :=
  match names with
  | [] => EmptyString
  | l => "**" +:+ label +:+ ":** " +:+ backticked l +:+ nl2
  end.

(** A titled section with one entry per member, or nothing for no member. *)
Definition members_section (title : string) (entries : list string) : string :=
  match entries with
  | [] => EmptyString
  | l => "## " +:+ title +:+ nl2 +:+ concat_text l
  end.

(** The entries of a method, a property and an enum case. *)
Definition method_entry (m : method_info) : string :=
  "### " +:+ method_name m +:+ "()" +:+ nl2
  +:+ doc_paragraph (method_docstring m)
  +:+ optional_line "Returns" (method_return_type m).

Definition property_entry (p : property_info) : string :=
  "### $" +:+ property_name p +:+ nl2 +:+ doc_paragraph (property_docstring p).

Definition case_entry (c : case_info) : string :=
  "### " +:+ case_name c +:+ nl2 +:+ doc_paragraph (case_docstring c).

(** * Properties *)

(** ** Facts about the string primitives *)

Module PyFacts.

Lemma app_assoc (a b c : string) : (a +:+ b) +:+ c = a +:+ (b +:+ c).
Proof. induction a as [|x a IH]; simpl; [reflexivity | now rewrite IH]. Qed.

Lemma app_nil_r (a : string) : a +:+ EmptyString = a.
Proof. induction a as [|x a IH]; simpl; [reflexivity | now rewrite IH]. Qed.

Lemma length_app (a b : string) :
  String.length (a +:+ b) = String.length a + String.length b.
Proof. induction a as [|x a IH]; simpl; [reflexivity | now rewrite IH]. Qed.

Lemma drop_0 (s : string) : Py.drop 0 s = s.
Proof. reflexivity. Qed.

Lemma drop_app_length (a b : string) : Py.drop (String.length a) (a +:+ b) = b.
Proof. induction a as [|x a IH]; simpl; [reflexivity | exact IH]. Qed.

Lemma take_app_length (a b : string) : Py.take (String.length a) (a +:+ b) = a.
Proof. induction a as [|x a IH]; simpl; [reflexivity | now rewrite IH]. Qed.

Lemma take_drop (n : nat) (s : string) : Py.take n s +:+ Py.drop n s = s.
Proof.
  revert s; induction n as [|n IH]; intros [|a s]; simpl; try reflexivity.
  now rewrite IH.
Qed.

Lemma length_take (n : nat) (s : string) :
  String.length (Py.take n s) = Nat.min n (String.length s).
Proof.
  revert s; induction n as [|n IH]; intros [|a s]; simpl; try reflexivity.
  now rewrite IH.
Qed.

Lemma length_drop (n : nat) (s : string) :
  String.length (Py.drop n s) = String.length s - n.
Proof.
  revert s; induction n as [|n IH]; intros [|a s]; simpl; try reflexivity.
  apply IH.
Qed.

Lemma drop_drop (n m : nat) (s : string) :
  Py.drop n (Py.drop m s) = Py.drop (m + n) s.
Proof.
  revert s; induction m as [|m IH]; intros s; simpl; [reflexivity|].
  destruct s as [|a s]; [now destruct n | apply IH].
Qed.

Lemma drop_all (n : nat) (s : string) :
  String.length s <= n -> Py.drop n s = EmptyString.
Proof.
  revert s; induction n as [|n IH]; intros [|a s]; simpl; intros H;
    try reflexivity; try lia.
  apply IH; lia.
Qed.

Lemma take_all (n : nat) (s : string) :
  String.length s <= n -> Py.take n s = s.
Proof.
  revert s; induction n as [|n IH]; intros [|a s]; simpl; intros H;
    try reflexivity; try lia.
  rewrite IH; [reflexivity | lia].
Qed.

Lemma startswith_spec (sub s : string) :
  Py.startswith sub s = true <-> exists post, s = sub +:+ post.
Proof.
  revert s; induction sub as [|a sub IH]; intros s; simpl.
  - split; [intros _; now exists s | reflexivity].
  - destruct s as [|b s].
    + split; [discriminate | intros [post H]; discriminate].
    + rewrite andb_true_iff, Ascii.eqb_eq, IH. split.
      * intros [-> [post ->]]. now exists post.
      * intros [post H]. injection H as -> ->. split; [reflexivity|now exists post].
Qed.

Lemma startswith_app (sub post : string) : Py.startswith sub (sub +:+ post) = true.
Proof. apply startswith_spec. now exists post. Qed.

Lemma occurs_at_iff (sub s : string) (i : nat) :
  occurs_at sub s i <->
  i <= String.length s /\ Py.startswith sub (Py.drop i s) = true.
Proof.
  split.
  - intros (pre & post & -> & <-). split.
    + rewrite length_app. lia.
    + rewrite drop_app_length. apply startswith_app.
  - intros [Hi H]. apply startswith_spec in H as [post H].
    exists (Py.take i s), post. split.
    + rewrite <- H. symmetry; apply take_drop.
    + rewrite length_take. lia.
Qed.

Lemma occurs_at_bound (sub s : string) (i : nat) :
  occurs_at sub s i -> i + String.length sub <= String.length s.
Proof.
  intros (pre & post & -> & <-). rewrite !length_app. lia.
Qed.

(** The value of [find0] is the lowest offset of an occurrence. *)
Lemma find0_Some (sub s : string) (i : nat) :
  Py.find0 sub s = Some i ->
  occurs_at sub s i /\ forall j, occurs_at sub s j -> i <= j.
Proof.
  revert i; induction s as [|a s IH]; intros i; simpl.
  - destruct sub as [|b sub]; simpl; [|discriminate].
    intros [= <-]. split; [|intros; lia].
    apply occurs_at_iff. simpl. auto.
  - destruct (Py.startswith sub (String a s)) eqn:E.
    + intros [= <-]. split; [|intros; lia].
      apply occurs_at_iff. simpl. split; [lia | exact E].
    + destruct (Py.find0 sub s) as [k|] eqn:F; simpl; [|discriminate].
      intros [= <-]. destruct (IH k eq_refl) as [H1 H2]. split.
      * apply occurs_at_iff in H1 as [H1 H1']. apply occurs_at_iff. simpl.
        split; [lia | exact H1'].
      * intros [|j] Hj.
        -- apply occurs_at_iff in Hj as [_ Hj]. simpl in Hj. congruence.
        -- apply occurs_at_iff in Hj as [Hj Hj']. simpl in Hj, Hj'.
           assert (occurs_at sub s j) by (apply occurs_at_iff; split; [lia|auto]).
           specialize (H2 j H). lia.
Qed.

Lemma find0_None (sub s : string) :
  Py.find0 sub s = None -> forall j, ~ occurs_at sub s j.
Proof.
  induction s as [|a s IH]; simpl.
  - destruct sub as [|b sub]; simpl; [discriminate|].
    intros _ j Hj. apply occurs_at_bound in Hj. simpl in Hj. lia.
  - destruct (Py.startswith sub (String a s)) eqn:E; [discriminate|].
    destruct (Py.find0 sub s) as [k|] eqn:F; simpl; [discriminate|].
    intros _ [|j] Hj; apply occurs_at_iff in Hj as [Hj Hj']; simpl in Hj, Hj'.
    + congruence.
    + apply (IH eq_refl j). apply occurs_at_iff. split; [lia | auto].
Qed.

(** The value of [rfind0] is the highest offset of an occurrence. *)
Lemma rfind0_Some (sub s : string) (i : nat) :
  Py.rfind0 sub s = Some i ->
  occurs_at sub s i /\ forall j, occurs_at sub s j -> j <= i.
Proof.
  revert i; induction s as [|a s IH]; intros i.
  - simpl. destruct sub as [|b sub]; simpl; [|discriminate].
    intros [= <-]. split.
    + apply occurs_at_iff. simpl. auto.
    + intros j Hj. apply occurs_at_bound in Hj. simpl in Hj. lia.
  - cbn [Py.rfind0]. destruct (Py.rfind0 sub s) as [k|] eqn:F.
    + intros [= <-]. destruct (IH k eq_refl) as [H1 H2]. split.
      * apply occurs_at_iff in H1 as [H1 H1']. apply occurs_at_iff. simpl.
        split; [lia | exact H1'].
      * intros [|j] Hj; [lia|].
        apply occurs_at_iff in Hj as [Hj Hj']. simpl in Hj, Hj'.
        assert (occurs_at sub s j) by (apply occurs_at_iff; split; [lia|auto]).
        specialize (H2 j H). lia.
    + destruct (Py.startswith sub (String a s)) eqn:E; [|discriminate].
      intros [= <-]. split.
      * apply occurs_at_iff. simpl. split; [lia | exact E].
      * intros [|j] Hj; [lia|]. exfalso.
        apply occurs_at_iff in Hj as [Hj Hj']. simpl in Hj, Hj'.
        assert (occurs_at sub s j) by (apply occurs_at_iff; split; [lia|auto]).
        revert H. clear -F. revert j.
        induction s as [|b s IHs]; intros j.
        -- simpl in F. intros H. apply occurs_at_iff in H as [H H'].
           simpl in H. assert (j = 0) by lia. subst j. simpl in H'.
           rewrite H' in F. discriminate.
        -- cbn [Py.rfind0] in F.
           destruct (Py.rfind0 sub s) as [k|] eqn:F'; [discriminate|].
           destruct (Py.startswith sub (String b s)) eqn:E'; [discriminate|].
           intros H. apply occurs_at_iff in H as [H H']. destruct j as [|j].
           ++ simpl in H'. congruence.
           ++ simpl in H, H'. apply (IHs eq_refl j).
              apply occurs_at_iff. split; [lia | auto].
Qed.

Lemma rfind0_None (sub s : string) :
  Py.rfind0 sub s = None -> forall j, ~ occurs_at sub s j.
Proof.
  induction s as [|b s IHs]; intros F j H.
  - simpl in F. apply occurs_at_iff in H as [H H'].
    simpl in H. assert (j = 0) by lia. subst j. simpl in H'.
    rewrite H' in F. discriminate.
  - cbn [Py.rfind0] in F.
    destruct (Py.rfind0 sub s) as [k|] eqn:F'; [discriminate|].
    destruct (Py.startswith sub (String b s)) eqn:E'; [discriminate|].
    apply occurs_at_iff in H as [H H']. destruct j as [|j].
    + simpl in H'. congruence.
    + simpl in H, H'. apply (IHs eq_refl j).
      apply occurs_at_iff. split; [lia | auto].
Qed.

Lemma take_app_ge (n : nat) (a b : string) :
  String.length a <= n ->
  Py.take n (a +:+ b) = a +:+ Py.take (n - String.length a) b.
Proof.
  revert n; induction a as [|x a IH]; intros n H; simpl in *.
  - now rewrite Nat.sub_0_r.
  - destruct n as [|n]; [lia|]. simpl. rewrite IH; [reflexivity | lia].
Qed.

Lemma occurs_take (sub s : string) (n j : nat) :
  occurs_at sub (Py.take n s) j <->
  occurs_at sub s j /\ j + String.length sub <= n.
Proof.
  split.
  - intros H. split.
    + pose proof (take_drop n s) as E.
      destruct H as (pre & post & Hs & Hl). exists pre, (post +:+ Py.drop n s).
      split; [|exact Hl]. rewrite <- E at 1. rewrite Hs.
      now rewrite !app_assoc.
    + apply occurs_at_bound in H. rewrite length_take in H. lia.
  - intros [(pre & post & -> & <-) Hn].
    exists pre, (Py.take (n - String.length pre - String.length sub) post).
    split; [|reflexivity].
    rewrite take_app_ge by lia. rewrite take_app_ge by lia. reflexivity.
Qed.

Lemma occurs_drop (sub s : string) (n j : nat) :
  n <= String.length s ->
  occurs_at sub (Py.drop n s) j <-> occurs_at sub s (n + j).
Proof.
  intros Hn. rewrite !occurs_at_iff, drop_drop, length_drop.
  split; intros [H1 H2]; (split; [lia | exact H2]).
Qed.

(** [rfind sub s stop] is the highest occurrence that lies inside [s[:stop]]. *)
Lemma rfind_Some (sub s : string) (stop i : nat) :
  Py.rfind sub s stop = Some i ->
  (occurs_at sub s i /\ i + String.length sub <= stop)
  /\ forall j, occurs_at sub s j -> j + String.length sub <= stop -> j <= i.
Proof.
  unfold Py.rfind. intros H. apply rfind0_Some in H as [H1 H2]. split.
  - now apply occurs_take.
  - intros j Hj Hs. apply H2. apply occurs_take. now split.
Qed.

Lemma rfind_None (sub s : string) (stop : nat) :
  Py.rfind sub s stop = None ->
  forall j, occurs_at sub s j -> ~ j + String.length sub <= stop.
Proof.
  unfold Py.rfind. intros H j Hj Hs.
  apply (rfind0_None _ _ H j). apply occurs_take. now split.
Qed.

(** [find sub s start] is the lowest occurrence at or after [start]. *)
Lemma find_Some (sub s : string) (start e : nat) :
  Py.find sub s start = Some e ->
  (occurs_at sub s e /\ start <= e)
  /\ forall e', occurs_at sub s e' -> start <= e' -> e <= e'.
Proof.
  unfold Py.find. destruct (Nat.leb_spec start (String.length s)) as [L|L];
    [|discriminate].
  destruct (Py.find0 sub (Py.drop start s)) as [k|] eqn:F; simpl; [|discriminate].
  intros [= <-]. apply find0_Some in F as [H1 H2]. split.
  - split; [now apply occurs_drop | lia].
  - intros e' He' Hs. replace e' with (start + (e' - start)) in He' by lia.
    apply occurs_drop in He'; [|exact L]. specialize (H2 _ He'). lia.
Qed.

Lemma find_None (sub s : string) (start : nat) :
  Py.find sub s start = None ->
  forall e, occurs_at sub s e -> e < start.
Proof.
  unfold Py.find. destruct (Nat.leb_spec start (String.length s)) as [L|L].
  - destruct (Py.find0 sub (Py.drop start s)) as [k|] eqn:F; simpl; [discriminate|].
    intros _ e He. destruct (Nat.lt_ge_cases e start) as [?|G]; [assumption|].
    exfalso. replace e with (start + (e - start)) in He by lia.
    apply occurs_drop in He; [|exact L]. exact (find0_None _ _ F _ He).
  - intros _ e He. apply occurs_at_bound in He. lia.
Qed.

End PyFacts.

Import PyFacts.

(** ** The backward doc-comment lookup *)

Lemma last_opener_unique (content : string) (p s s' : nat) :
  last_opener content p s -> last_opener content p s' -> s = s'.
Proof.
  intros [H1 H2] [H1' H2']. apply Nat.le_antisymm; auto.
Qed.

Lemma first_closer_unique (content : string) (s e e' : nat) :
  first_closer content s e -> first_closer content s e' -> e = e'.
Proof.
  intros [H1 H2] [H1' H2']. apply Nat.le_antisymm; auto.
Qed.

Lemma rfind_last_opener (content : string) (p s : nat) :
  Py.rfind "/**" content p = Some s <-> last_opener content p s.
Proof.
  split.
  - intros H. apply rfind_Some in H as [H1 H2]. split; [exact H1|].
    intros s' [Ha Hb]. now apply H2.
  - intros H. destruct (Py.rfind "/**" content p) as [i|] eqn:F.
    + f_equal. apply (last_opener_unique content p); [|exact H].
      apply rfind_Some in F as [H1 H2]. split; [exact H1|].
      intros s' [Ha Hb]. now apply H2.
    + destruct H as [[Ha Hb] _]. exfalso. exact (rfind_None _ _ _ F _ Ha Hb).
Qed.

Lemma find_first_closer (content : string) (s e : nat) :
  Py.find "*/" content s = Some e <-> first_closer content s e.
Proof.
  split.
  - intros H. apply find_Some in H as [H1 H2]. split; [exact H1|].
    intros e' [Ha Hb]. now apply H2.
  - intros H. destruct (Py.find "*/" content s) as [i|] eqn:F.
    + f_equal. apply (first_closer_unique content s); [|exact H].
      apply find_Some in F as [H1 H2]. split; [exact H1|].
      intros e' [Ha Hb]. now apply H2.
    + destruct H as [[Ha Hb] _]. exfalso.
      pose proof (find_None _ _ _ F _ Ha). lia.
Qed.



(** ** Facts about the matcher *)

Module ReFacts.

Lemma in_downto (n hi lo : nat) : In n (downto hi lo) -> lo <= n <= hi.
Proof.
  unfold downto. rewrite <- in_rev, in_seq. lia.
Qed.

Lemma in_seq_match (r1 r2 : regex) (s : string) (g : captures)
    (n : nat) (g' : captures) :
  In (n, g') (rmatch (Seq r1 r2) s g) ->
  exists n1 g1 n2,
    In (n1, g1) (rmatch r1 s g) /\
    In (n2, g') (rmatch r2 (Py.drop n1 s) g1) /\ n = n1 + n2.
Proof.
  simpl. rewrite in_flat_map. intros ([n1 g1] & H1 & H2).
  apply in_map_iff in H2 as ([n2 g2] & E & H2). injection E as <- <-.
  now exists n1, g1, n2.
Qed.

Lemma in_group_match (k : nat) (r1 : regex) (s : string) (g : captures)
    (n : nat) (g' : captures) :
  In (n, g') (rmatch (Group k r1) s g) ->
  exists g1, In (n, g1) (rmatch r1 s g).
Proof.
  simpl. rewrite in_map_iff. intros ([n1 g1] & E & H). injection E as <- _.
  now exists g1.
Qed.

Lemma startswith_first (l s : string) :
  Py.startswith l s = true ->
  l = EmptyString \/
  exists a l' s', l = String a l' /\ s = String a s'.
Proof.
  destruct l as [|a l]; [now left|]. destruct s as [|b s]; [discriminate|].
  simpl. rewrite andb_true_iff, Ascii.eqb_eq. intros [-> _]. right.
  now exists b, l, s.
Qed.

Lemma run_pos (c : cls) (s : string) :
  0 < run c s -> exists a s', s = String a s' /\ in_cls c a = true.
Proof.
  destruct s as [|a s]; simpl; [lia|].
  destruct (in_cls c a) eqn:E; [|lia]. intros _. now exists a, s.
Qed.

(** A success is empty, for a nullable pattern, or starts with a character of
    the pattern's first set. *)
Lemma rmatch_first (r : regex) (s : string) (g : captures)
    (n : nat) (g' : captures) :
  In (n, g') (rmatch r s g) ->
  (n = 0 /\ nullable r = true) \/
  (0 < n /\ exists a s', s = String a s' /\ can_start r a = true).
Proof.
  revert s g n g'.
  induction r as [l|c|c|c|r1 IH1 r2 IH2|r1 IH1 r2 IH2|r1 IH1|k r1 IH1];
    intros s g n g' H.
  - simpl in H. destruct (Py.startswith l s) eqn:E; [|contradiction].
    destruct H as [[= <- <-]|[]].
    apply startswith_first in E as [->|(a & l' & s' & -> & ->)].
    + left. auto.
    + right. split; [simpl; lia|]. exists a, s'. split; [reflexivity|].
      simpl. apply Ascii.eqb_refl.
  - simpl in H. destruct s as [|a s]; [contradiction|].
    destruct (in_cls c a) eqn:E; [|contradiction].
    destruct H as [[= <- <-]|[]]. right. split; [lia|]. now exists a, s.
  - simpl in H. apply in_map_iff in H as (k & [= <- <-] & H).
    apply in_downto in H. destruct k as [|k]; [left; auto|].
    right. split; [lia|]. apply run_pos. lia.
  - simpl in H. apply in_map_iff in H as (k & [= <- <-] & H).
    apply in_downto in H. right. split; [lia|]. apply run_pos. lia.
  - apply in_seq_match in H as (n1 & g1 & n2 & H1 & H2 & ->).
    apply IH1 in H1. apply IH2 in H2. simpl.
    destruct H1 as [[-> N1]|[P1 (a & s' & -> & F1)]].
    + rewrite N1. simpl in H2 |- *.
      destruct H2 as [[-> N2]|[P2 (a & s' & -> & F2)]].
      * left. auto.
      * right. split; [lia|]. exists a, s'. split; [reflexivity|].
        rewrite F2. apply orb_true_r.
    + right. split; [lia|]. exists a, s'. split; [reflexivity|].
      now rewrite F1.
  - simpl in H. apply in_app_iff in H as [H|H]; [apply IH1 in H|apply IH2 in H];
      simpl; (destruct H as [[-> N]|[P (a & s' & -> & F)]];
              [left; rewrite N; auto using orb_true_r
              |right; split; [lia|]; exists a, s'; rewrite F;
               auto using orb_true_r]).
  - simpl in H. apply in_app_iff in H as [H|[[= <- <-]|[]]]; [|left; auto].
    apply IH1 in H. destruct H as [[-> N]|H]; [left; auto | right; exact H].
  - apply in_group_match in H as [g1 H]. apply IH1 in H. exact H.
Qed.

Lemma all_chars_app (P : ascii -> bool) (a b : string) :
  all_chars P (a +:+ b) = all_chars P a && all_chars P b.
Proof.
  induction a as [|x a IH]; simpl; [reflexivity|].
  now rewrite IH, andb_assoc.
Qed.

Lemma all_chars_impl (P Q : ascii -> bool) (s : string) :
  (forall a, P a = true -> Q a = true) ->
  all_chars P s = true -> all_chars Q s = true.
Proof.
  intros PQ. induction s as [|a s IH]; simpl; [reflexivity|].
  rewrite !andb_true_iff. intros [H1 H2]. auto.
Qed.

Lemma all_chars_drop (P : ascii -> bool) (n : nat) (s : string) :
  all_chars P s = true -> all_chars P (Py.drop n s) = true.
Proof.
  revert s; induction n as [|n IH]; intros [|a s]; simpl; auto.
  rewrite andb_true_iff. intros [_ H]. auto.
Qed.

Lemma take_add (n m : nat) (s : string) :
  Py.take (n + m) s = Py.take n s +:+ Py.take m (Py.drop n s).
Proof.
  revert s; induction n as [|n IH]; intros s; simpl; [reflexivity|].
  destruct s as [|a s]; simpl; [now destruct m|]. now rewrite IH.
Qed.

Lemma all_chars_run (c : cls) (n : nat) (s : string) :
  n <= run c s -> all_chars (in_cls c) (Py.take n s) = true.
Proof.
  revert s; induction n as [|n IH]; intros s H; [reflexivity|].
  destruct s as [|a s]; simpl in *; [lia|].
  destruct (in_cls c a) eqn:E; [|lia]. simpl. apply IH. lia.
Qed.

Lemma all_chars_mem (s : string) :
  all_chars (fun a => mem a (chars s)) s = true.
Proof.
  assert (G : forall l t, (forall a, In a (chars t) -> In a l) ->
                          all_chars (fun a => mem a l) t = true).
  { intros l t. induction t as [|b t IH]; simpl; [reflexivity|].
    intros H. rewrite IH by auto. rewrite andb_true_r.
    unfold mem. apply existsb_exists. exists b. split; [auto|].
    apply Ascii.eqb_refl. }
  apply G. auto.
Qed.

Lemma startswith_take (l s : string) :
  Py.startswith l s = true -> Py.take (String.length l) s = l.
Proof.
  intros H. apply startswith_spec in H as [post ->]. apply take_app_length.
Qed.

(** The text consumed by a success is made of characters of the pattern's
    alphabet. *)
Lemma rmatch_alphabet (r : regex) (s : string) (g : captures)
    (n : nat) (g' : captures) :
  In (n, g') (rmatch r s g) ->
  all_chars (alphabet r) (Py.take n s) = true.
Proof.
  revert s g n g'.
  induction r as [l|c|c|c|r1 IH1 r2 IH2|r1 IH1 r2 IH2|r1 IH1|k r1 IH1];
    intros s g n g' H.
  - simpl in H. destruct (Py.startswith l s) eqn:E; [|contradiction].
    destruct H as [[= <- <-]|[]]. rewrite (startswith_take _ _ E).
    apply all_chars_mem.
  - simpl in H. destruct s as [|a s]; [contradiction|].
    destruct (in_cls c a) eqn:E; [|contradiction].
    destruct H as [[= <- <-]|[]]. simpl. now rewrite E.
  - simpl in H. apply in_map_iff in H as (k & [= <- <-] & H).
    apply in_downto in H. apply all_chars_run. lia.
  - simpl in H. apply in_map_iff in H as (k & [= <- <-] & H).
    apply in_downto in H. apply all_chars_run. lia.
  - apply in_seq_match in H as (n1 & g1 & n2 & H1 & H2 & ->).
    rewrite take_add, all_chars_app. apply andb_true_iff. split.
    + eapply all_chars_impl; [|exact (IH1 _ _ _ _ H1)].
      intros a Ha. simpl. now rewrite Ha.
    + eapply all_chars_impl; [|exact (IH2 _ _ _ _ H2)].
      intros a Ha. simpl. rewrite Ha. apply orb_true_r.
  - simpl in H. apply in_app_iff in H as [H|H].
    + eapply all_chars_impl; [|exact (IH1 _ _ _ _ H)].
      intros a Ha. simpl. now rewrite Ha.
    + eapply all_chars_impl; [|exact (IH2 _ _ _ _ H)].
      intros a Ha. simpl. rewrite Ha. apply orb_true_r.
  - simpl in H. apply in_app_iff in H as [H|[[= <- <-]|[]]]; [|reflexivity].
    exact (IH1 _ _ _ _ H).
  - apply in_group_match in H as [g1 H]. exact (IH1 _ _ _ _ H).
Qed.

Lemma head_In {A : Type} (l : list A) (x : A) : head l = Some x -> In x l.
Proof. destruct l; simpl; [discriminate|]. intros [= ->]. now left. Qed.

(** Every element of a scan is the first success of the pattern at its own
    start offset, which is not before the scan's position. *)
Lemma scan_sound (r : regex) (s : string) (pos skip : nat) (m : rematch) :
  In m (scan r s pos skip) ->
  pos <= m_start m /\
  match_here r (Py.drop (m_start m - pos) s)
  = Some (m_end m - m_start m, m_groups m).
Proof.
  revert pos skip; induction s as [|a s IH]; intros pos skip H.
  - simpl in H. destruct skip; [|contradiction].
    destruct (match_here r EmptyString) as [[n g]|] eqn:E; [|contradiction].
    destruct H as [<-|[]]. simpl. split; [lia|].
    rewrite Nat.sub_diag. simpl. rewrite E. do 2 f_equal. lia.
  - simpl in H. destruct skip as [|k].
    + destruct (match_here r (String a s)) as [[n g]|] eqn:E.
      * destruct H as [<-|H].
        -- simpl. split; [lia|]. rewrite Nat.sub_diag. simpl. rewrite E.
           do 2 f_equal. lia.
        -- apply IH in H as [H1 H2]. split; [lia|].
           replace (m_start m - pos) with (S (m_start m - S pos)) by lia.
           exact H2.
      * apply IH in H as [H1 H2]. split; [lia|].
        replace (m_start m - pos) with (S (m_start m - S pos)) by lia.
        exact H2.
    + apply IH in H as [H1 H2]. split; [lia|].
      replace (m_start m - pos) with (S (m_start m - S pos)) by lia.
      exact H2.
Qed.

(** Every match of [finditer] is a success of the pattern at its start. *)
Lemma finditer_sound (r : regex) (s : string) (m : rematch) :
  In m (finditer r s) ->
  In (m_end m - m_start m, m_groups m) (rmatch r (Py.drop (m_start m) s) []).
Proof.
  intros H. apply scan_sound in H as [_ H]. rewrite Nat.sub_0_r in H.
  now apply head_In.
Qed.

(** A pattern without any success in the text has no match. *)
Lemma scan_nil (r : regex) (s : string) (pos skip : nat) :
  (forall n, rmatch r (Py.drop n s) [] = []) -> scan r s pos skip = [].
Proof.
  revert pos skip; induction s as [|a s IH]; intros pos skip H.
  - simpl. destruct skip; [|reflexivity].
    pose proof (H 0) as H0. simpl in H0. unfold match_here. now rewrite H0.
  - simpl. destruct skip as [|k].
    + pose proof (H 0) as H0. simpl in H0. unfold match_here. rewrite H0.
      simpl. apply IH. intros n. exact (H (S n)).
    + apply IH. intros n. exact (H (S n)).
Qed.

Lemma seq_no_match (r1 r2 : regex) (s : string) (g : captures) :
  (forall n g1, rmatch r2 (Py.drop n s) g1 = []) -> rmatch (Seq r1 r2) s g = [].
Proof.
  intros H. destruct (rmatch (Seq r1 r2) s g) as [|[n g'] l] eqn:E;
    [reflexivity|].
  assert (I : In (n, g') (rmatch (Seq r1 r2) s g)) by (rewrite E; now left).
  apply in_seq_match in I as (n1 & g1 & n2 & _ & I & _).
  rewrite H in I. contradiction.
Qed.

(** The text consumed by a sequence that ends with a literal is that
    literal after text over the alphabet of what precedes it. *)
Lemma rmatch_final_lit (r : regex) (l : string) (s : string) (g : captures)
    (n : nat) (g' : captures) :
  final_lit r = Some l ->
  In (n, g') (rmatch r s g) ->
  exists k,
    n = k + String.length l /\
    Py.take n s = Py.take k s +:+ l /\
    all_chars (body_alphabet r) (Py.take k s) = true.
Proof.
  revert s g n g'.
  induction r as [l0|c|c|c|r1 IH1 r2 IH2|r1 IH1 r2 IH2|r1 IH1|k r1 IH1];
    intros s g n g' F H; try discriminate F.
  - injection F as ->. simpl in H.
    destruct (Py.startswith l s) eqn:E; [|contradiction].
    destruct H as [[= <- <-]|[]]. exists 0. repeat split.
    now rewrite (startswith_take _ _ E).
  - simpl in F. apply in_seq_match in H as (n1 & g1 & n2 & H1 & H2 & ->).
    destruct (IH2 _ _ _ _ F H2) as (k & -> & T & A).
    exists (n1 + k). split; [lia|]. split.
    + rewrite (take_add n1 (k + String.length l)), T, (take_add n1 k).
      now rewrite PyFacts.app_assoc.
    + rewrite take_add, all_chars_app. apply andb_true_iff. split.
      * eapply all_chars_impl; [|exact (rmatch_alphabet _ _ _ _ _ H1)].
        intros a Ha. simpl. now rewrite Ha.
      * eapply all_chars_impl; [|exact A].
        intros a Ha. simpl. rewrite Ha. apply orb_true_r.
Qed.

End ReFacts.

Import ReFacts.

(** ** Member extraction *)

Lemma enum_alphabet_no_sep (a : ascii) :
  alphabet enum_pattern a = true -> no_sep a = true.
Proof.
  intros H. unfold no_sep, mem. simpl.
  destruct (Ascii.eqb_spec a ","%char) as [->|_]; [discriminate H|].
  destruct (Ascii.eqb_spec a ";"%char) as [->|_]; [discriminate H|].
  reflexivity.
Qed.

(** The case pattern needs a [,] or a [;]. *)
Lemma case_no_match (t : string) (g : captures) :
  all_chars no_sep t = true -> rmatch case_pattern t g = [].
Proof.
  intros H. unfold case_pattern.
  apply seq_no_match; intros n1 g1.
  apply seq_no_match; intros n2 g2.
  apply seq_no_match; intros n3 g3.
  apply seq_no_match; intros n4 g4.
  assert (D : all_chars no_sep
                (Py.drop n4 (Py.drop n3 (Py.drop n2 (Py.drop n1 t)))) = true)
    by (do 4 apply all_chars_drop; exact H).
  destruct (Py.drop n4 (Py.drop n3 (Py.drop n2 (Py.drop n1 t)))) as [|a t'];
    [reflexivity|].
  change (all_chars no_sep (String a t'))
    with (no_sep a && all_chars no_sep t') in D.
  apply andb_true_iff in D as [D _].
  unfold no_sep in D. apply negb_true_iff in D.
  change (rmatch (One (COneOf [","%char; ";"%char])) (String a t') g4)
    with (if mem a [","%char; ";"%char] then [(1, g4)] else []).
  now rewrite D.
Qed.

(** The text of a match consists of characters of the pattern's alphabet. *)
Lemma match_text_alphabet (r : regex) (content : string) (m : rematch) :
  In m (finditer r content) ->
  all_chars (alphabet r) (Py.slice (m_start m) (m_end m) content) = true.
Proof.
  intros H. apply finditer_sound in H. unfold Py.slice.
  exact (rmatch_alphabet _ _ _ _ _ H).
Qed.

(** The text of a match of a pattern whose body has no brace and that ends
    with an opening brace: a brace-free header and the brace. *)
Lemma header_span (r : regex) (content : string) (m : rematch) :
  final_lit r = Some "{" -> body_alphabet r "{"%char = false ->
  In m (finditer r content) ->
  exists header,
    Py.slice (m_start m) (m_end m) content = header +:+ "{" /\
    all_chars no_brace header = true.
Proof.
  intros F B H. apply finditer_sound in H.
  destruct (rmatch_final_lit _ _ _ _ _ _ F H) as (k & _ & T & A).
  exists (Py.take k (Py.drop (m_start m) content)). split; [exact T|].
  eapply all_chars_impl; [|exact A]. intros a Ha. unfold no_brace.
  destruct (Ascii.eqb_spec a "{"%char) as [->|_]; [congruence|reflexivity].
Qed.

(** No enum ever receives a case: the span handed to [_extract_enum_cases]
    is the text of the enum header, which has no [,] and no [;]. *)
Lemma enum_cases_empty (content : string) (e : enum_info) :
  In e (enums (_parse_content content)) -> enum_cases e = [].
Proof.
  simpl. rewrite in_map_iff. intros (m & <- & H). simpl.
  unfold _extract_enum_cases.
  assert (A : all_chars no_sep
                (Py.slice (m_start m) (m_end m) content) = true).
  { eapply all_chars_impl; [exact enum_alphabet_no_sep|].
    now apply match_text_alphabet. }
  unfold finditer. rewrite scan_nil; [reflexivity|].
  intros n. apply case_no_match. now apply all_chars_drop.
Qed.

(** C1. The member patterns are run on the text of the declaration header
    (from the keyword through the opening brace), not on the text that
    follows the opening brace: for every declaration of every source text
    the span searched is a brace-free text followed by the opening brace.
    The class of [point_php] gets no method and no property, although the
    method and property extractors find both in the span from the opening
    brace (offset 12) to the end of the file. *)
Theorem members_searched_in_header_only :
  (forall (content : string) (m : rematch),
      In m (finditer class_pattern content) \/
      In m (finditer interface_pattern content) \/
      In m (finditer enum_pattern content) ->
      exists header,
        Py.slice (m_start m) (m_end m) content = header +:+ "{" /\
        all_chars no_brace header = true) /\
  finditer class_pattern point_php = [MkMatch 0 13 [(1, "Point")]] /\
  Py.slice 0 13 point_php = "class Point {" /\
  classes (_parse_content point_php)
  = [MkClass "Point" None [] EmptyString [] []] /\
  _extract_methods point_php 12 (String.length point_php)
  = [MkMethod "norm" None EmptyString] /\
  _extract_properties point_php 12 (String.length point_php)
  = [MkProperty "x" EmptyString].
Proof.
  split.
  - intros content m [H|[H|H]];
      [apply (header_span class_pattern)
      |apply (header_span interface_pattern)
      |apply (header_span enum_pattern)]; auto.
  - repeat split; vm_compute; reflexivity.
Qed.

(** C2. No enum of any source text receives a case.  For [status_php] the
    extraction returns the enum with its backing type and an empty case
    list, and the rendered document has no [## Cases] section, although the
    case extractor run on the span from the opening brace (offset 21) to the
    end of the file returns the two names in declaration order without
    their values, and the renderer lists given cases in order. *)
Theorem enum_cases_never_extracted :
  (forall (content : string) (e : enum_info),
      In e (enums (_parse_content content)) -> enum_cases e = []) /\
  enums (_parse_content status_php)
  = [MkEnum "Status" (Some "string") EmptyString []] /\
  map enum_doc (enums (_parse_content status_php))
  = ["# Status Enum" +:+ nl2 +:+ "**Backing Type:** `string`" +:+ nl2] /\
  _extract_enum_cases status_php 21 (String.length status_php)
  = [MkCase "Active" EmptyString; MkCase "Inactive" EmptyString] /\
  enum_doc (MkEnum "Status" (Some "string") EmptyString
                   [MkCase "Active" EmptyString; MkCase "Inactive" EmptyString])
  = "# Status Enum" +:+ nl2 +:+ "**Backing Type:** `string`" +:+ nl2
    +:+ "## Cases" +:+ nl2 +:+ "### Active" +:+ nl2 +:+ "### Inactive" +:+ nl2.
Proof.
  split; [exact enum_cases_empty|]. repeat split; vm_compute; reflexivity.
Qed.

(** ** Attribution of doc-comments *)

Lemma opens_before_inside (content : string) (p s : nat) :
  not_star_at content p ->
  opens_before content p s <-> opener_before content p s.
Proof.
  intros N. split; intros [H1 H2]; (split; [exact H1|]); [|lia].
  destruct (Nat.le_gt_cases (s + 3) p) as [L|G]; [exact L|exfalso].
  destruct H1 as (pre & post & -> & <-). unfold not_star_at in N.
  assert (p = String.length pre + 1 \/ p = String.length pre + 2) as [->| ->]
    by lia.
  - rewrite <- drop_drop, drop_app_length in N. discriminate N.
  - rewrite <- drop_drop, drop_app_length in N. discriminate N.
Qed.

Lemma nearest_is_last (content : string) (p s : nat) :
  not_star_at content p ->
  nearest_opener content p s -> last_opener content p s.
Proof.
  intros N [H1 H2]. split.
  - now apply opens_before_inside.
  - intros s' H. apply H2. now apply opens_before_inside.
Qed.

Lemma lookup_attributed (content : string) (p : nat) :
  not_star_at content p ->
  attributed content p (_extract_phpdoc_before content p).
Proof.
  intros N. unfold attributed, _extract_phpdoc_before. repeat split.
  - intros s e Hs He. apply (nearest_is_last _ _ _ N) in Hs.
    apply rfind_last_opener in Hs. rewrite Hs.
    apply find_first_closer in He. now rewrite He.
  - intros H. destruct (Py.rfind "/**" content p) as [s|] eqn:R; [|reflexivity].
    exfalso. apply rfind_Some in R as [R _]. apply (H s).
    now apply opens_before_inside.
  - intros s Hs H. apply (nearest_is_last _ _ _ N) in Hs.
    apply rfind_last_opener in Hs. rewrite Hs.
    destruct (Py.find "*/" content s) as [e|] eqn:F; [|reflexivity].
    exfalso. apply find_Some in F as [F _]. exact (H e F).
Qed.

(** A match of a pattern that is not nullable and cannot start with [*]
    does not start at a [*]. *)
Lemma match_not_star (r : regex) (t : string) (m : rematch) :
  nullable r = false -> can_start r "*"%char = false ->
  In m (finditer r t) ->
  exists a rest, Py.drop (m_start m) t = String a rest /\ a <> "*"%char.
Proof.
  intros Hn Hf H. apply finditer_sound in H. apply rmatch_first in H.
  destruct H as [[_ H]|[_ (a & rest & E & F)]]; [congruence|].
  exists a, rest. split; [exact E|]. intros ->. congruence.
Qed.

Lemma drop_take_head (k n : nat) (t : string) (a : ascii) (rest : string) :
  Py.drop k (Py.take n t) = String a rest ->
  exists rest', Py.drop k t = String a rest'.
Proof.
  revert n t; induction k as [|k IH]; intros n t H.
  - destruct n as [|n]; [discriminate H|].
    destruct t as [|b t]; [discriminate H|]. simpl in H.
    injection H as -> _. now exists t.
  - destruct n as [|n]; [discriminate H|].
    destruct t as [|b t]; [discriminate H|]. simpl in H |- *.
    exact (IH _ _ H).
Qed.

Lemma decl_not_star (r : regex) (content : string) (m : rematch) :
  nullable r = false -> can_start r "*"%char = false ->
  In m (finditer r content) -> not_star_at content (m_start m).
Proof.
  intros Hn Hf H. destruct (match_not_star _ _ _ Hn Hf H) as (a & rest & E & N).
  unfold not_star_at. rewrite E. cbn [Py.startswith].
  destruct (Ascii.eqb_spec "*"%char a) as [<-|_]; [congruence|reflexivity].
Qed.

Lemma member_not_star (r : regex) (content : string) (a b : nat)
    (m : rematch) :
  nullable r = false -> can_start r "*"%char = false ->
  In m (finditer r (Py.slice a b content)) ->
  not_star_at content (a + m_start m).
Proof.
  intros Hn Hf H. destruct (match_not_star _ _ _ Hn Hf H) as (c & rest & E & N).
  unfold Py.slice in E. apply drop_take_head in E as [rest' E].
  unfold not_star_at. rewrite <- drop_drop, E. cbn [Py.startswith].
  destruct (Ascii.eqb_spec "*"%char c) as [<-|_]; [congruence|reflexivity].
Qed.

(** C3. The doc-comment attributed to a declaration or member matched at
    position [p] is the block of the most recent opener [/**] that opens
    before [p], from that opener through its closer with both delimiters,
    whatever lies between the block and [p] (and it is empty when there is
    no such opener or that opener is never closed).  A block inserted
    between a doc-comment and its declaration is the one picked, and without
    an intervening opener the doc-comment of an earlier entity is
    attributed. *)
Theorem doc_comment_attribution :
  (forall content : string,
      (forall m, In m (finditer class_pattern content) ->
                 attributed content (m_start m)
                            (class_docstring (class_of_match content m))) /\
      (forall m, In m (finditer interface_pattern content) ->
                 attributed content (m_start m)
                   (interface_docstring (interface_of_match content m))) /\
      (forall m, In m (finditer enum_pattern content) ->
                 attributed content (m_start m)
                            (enum_docstring (enum_of_match content m))) /\
      (forall a b m,
          In m (finditer method_pattern (Py.slice a b content)) ->
          attributed content (a + m_start m)
                     (method_docstring (method_of_match content a m))) /\
      (forall a b m,
          In m (finditer property_pattern (Py.slice a b content)) ->
          attributed content (a + m_start m)
                     (property_docstring (property_of_match content a m))) /\
      (forall a b m,
          In m (finditer case_pattern (Py.slice a b content)) ->
          attributed content (a + m_start m)
                     (case_docstring (case_of_match content a m))))
  /\
  map class_docstring (classes (_parse_content interposed_php))
  = ["/** unrelated */"]
  /\
  map (fun c => (class_name c, class_docstring c))
      (classes (_parse_content inherited_php))
  = [("A", "/** Doc of A */"); ("B", "/** Doc of A */")].
Proof.
  split; [|split; vm_compute; reflexivity].
  intros content. split; [|split; [|split; [|split; [|split]]]].
  - intros m H. apply lookup_attributed.
    now apply (decl_not_star class_pattern).
  - intros m H. apply lookup_attributed.
    now apply (decl_not_star interface_pattern).
  - intros m H. apply lookup_attributed.
    now apply (decl_not_star enum_pattern).
  - intros a b m H. apply lookup_attributed.
    now apply (member_not_star method_pattern content a b).
  - intros a b m H. apply lookup_attributed.
    now apply (member_not_star property_pattern content a b).
  - intros a b m H. apply lookup_attributed.
    now apply (member_not_star case_pattern content a b).
Qed.

(** ** Normalisation of doc-comments *)

Lemma rstrip_last (s : string) (a : ascii) :
  Py.isspace a = false ->
  Py.rstrip (s +:+ String a EmptyString) = s +:+ String a EmptyString.
Proof.
  intros H. induction s as [|b s IH].
  - simpl. now rewrite H.
  - change (String b s +:+ String a EmptyString)
      with (String b (s +:+ String a EmptyString)).
    cbn [Py.rstrip]. rewrite IH. now destruct s.
Qed.

Lemma strip_delimited (body : string) :
  Py.strip ("/**" +:+ body +:+ "*/") = "/**" +:+ body +:+ "*/".
Proof.
  unfold Py.strip.
  change (Py.lstrip ("/**" +:+ body +:+ "*/")) with ("/**" +:+ body +:+ "*/").
  replace ("/**" +:+ body +:+ "*/")
    with (("/**" +:+ body +:+ "*") +:+ String "/"%char EmptyString).
  - now apply rstrip_last.
  - now rewrite !app_assoc.
Qed.

Lemma endswith_app (a suf : string) : Py.endswith suf (a +:+ suf) = true.
Proof.
  unfold Py.endswith. rewrite length_app.
  replace (String.length a + String.length suf - String.length suf)
    with (String.length a) by lia.
  rewrite drop_app_length, String.eqb_refl, andb_true_r.
  apply Nat.leb_le. lia.
Qed.

Lemma filter_map_comm {A B : Type} (f : B -> bool) (g : A -> B) (l : list A) :
  List.filter f (map g l) = map g (List.filter (fun x => f (g x)) l).
Proof.
  induction l as [|x l IH]; simpl; [reflexivity|].
  destruct (f (g x)); simpl; now rewrite IH.
Qed.

Lemma keep_line_strip (line : string) :
  keep_line (Py.strip line) = negb (discarded line).
Proof.
  unfold keep_line, discarded. rewrite negb_orb. f_equal.
  now destruct (Py.strip line).
Qed.


(** *** The specification's normalisation and the string primitives *)




















(** ** The driver *)

Module DriverFacts.

Lemma bind_run {A B : Type} (m : M A) (f : A -> M B) (w : world) :
  (m ≫= f) w =
  match m w with
  | (inl e, w') => (inl e, w')
  | (inr x, w') => f x w'
  end.
Proof. reflexivity. Qed.

Lemma contains_spec (pat s : string) :
  Py.contains pat s = true <-> has_substring pat s.
Proof.
  unfold Py.contains, has_substring. split.
  - destruct (Py.find0 pat s) as [i|] eqn:F; [|discriminate]. intros _.
    apply find0_Some in F as [(pre & post & E & _) _]. now exists pre, post.
  - intros (pre & post & E).
    destruct (Py.find0 pat s) as [i|] eqn:F; [reflexivity|exfalso].
    apply (find0_None _ _ F (String.length pre)). now exists pre, post.
Qed.

Lemma should_skip_spec (p : Path) :
  _should_skip_file p = true <-> excluded (path_str p).
Proof.
  unfold _should_skip_file, excluded. rewrite existsb_exists.
  split; intros (pat & H1 & H2); exists pat; (split; [exact H1|]);
    now apply contains_spec.
Qed.

Section Emits.
Context {P : event -> Prop}.

Lemma emits_ret {A : Type} (x : A) : emits_only P (mret x).
Proof. intros w. exists []. simpl. now rewrite List.app_nil_r. Qed.

Lemma emits_raise {A : Type} (e : exn) : emits_only P (@raise A e).
Proof. intros w. exists []. simpl. now rewrite List.app_nil_r. Qed.

Lemma emits_bind {A B : Type} (m : M A) (f : A -> M B) :
  emits_only P m -> (forall x, emits_only P (f x)) ->
  emits_only P (m ≫= f).
Proof.
  intros Hm Hf w. rewrite bind_run. destruct (Hm w) as (evs & E & F).
  destruct (m w) as [[e|x] w1]; simpl in E.
  - now exists evs.
  - destruct (Hf x w1) as (evs' & E' & F'). exists (evs ++ evs'). split.
    + rewrite E', E. now rewrite List.app_assoc.
    + now apply Forall_app.
Qed.

Lemma emits_print (line : string) :
  P (EvPrint line) -> emits_only P (print line).
Proof. intros H w. exists [EvPrint line]. simpl. auto. Qed.

Lemma emits_or_value_error {A : Type} (o : option A) (msg : string) :
  emits_only P (or_value_error o msg).
Proof. destruct o; [apply emits_ret | apply emits_raise]. Qed.

Lemma emits_for_each {A : Type} (l : list A) (body : A -> M unit) :
  (forall x, In x l -> emits_only P (body x)) ->
  emits_only P (for_each l body).
Proof.
  induction l as [|x l IH]; intros H; simpl.
  - apply emits_ret.
  - apply emits_bind; [apply H; now left|].
    intros _. apply IH. intros y Hy. apply H. now right.
Qed.

Variable fault : nat -> option exn.

Lemma emits_io {A : Type} (failed : exn -> event) (act : M A) :
  (forall e, P (failed e)) -> emits_only P act ->
  emits_only P (io fault failed act).
Proof.
  intros Hf H w. unfold io. destruct (fault (clock w)) as [e|].
  - exists [failed e]. simpl. auto.
  - exact (H (tick w)).
Qed.

Lemma emits_read_file (p : Path) :
  P (EvRead (path_str p)) -> (forall e, P (EvReadFailed (path_str p) e)) ->
  emits_only P (read_file fault p).
Proof.
  intros H Hf. apply emits_io; [exact Hf|].
  intros w. destruct (fs w !! path_str p).
  - exists [EvRead (path_str p)]. simpl. auto.
  - eexists [_]. simpl. auto.
Qed.

Lemma emits_mkdir (p : Path) :
  P (EvMkdir (path_str p)) -> (forall e, P (EvMkdirFailed (path_str p) e)) ->
  emits_only P (mkdir_parents fault p).
Proof.
  intros H Hf. apply emits_io; [exact Hf|].
  intros w. exists [EvMkdir (path_str p)]. simpl. auto.
Qed.

Lemma emits_write_file (src p : Path) (text : string) :
  P (EvWrite (path_str src) (path_str p) text) ->
  (forall e, P (EvWriteFailed (path_str src) (path_str p) e)) ->
  emits_only P (write_file fault src p text).
Proof.
  intros H Hf. apply emits_io; [exact Hf|]. intros w.
  exists [EvWrite (path_str src) (path_str p) text]. simpl. auto.
Qed.

End Emits.

End DriverFacts.

Import DriverFacts.

Section DriverProperties.

Variable fault : nat -> option exn.
Variables src_path docs_path : Path.

Lemma untouched_by_other (path : string) (f : Path) :
  excluded path -> _should_skip_file f = false -> path_str f <> path.
Proof.
  intros Hx Hs <-. apply should_skip_spec in Hx. congruence.
Qed.

Lemma emits_generate_doc (path : string) (text : string) (f : Path) :
  path_str f <> path ->
  emits_only (fun ev => ~ touches path ev)
             (generate_doc fault src_path docs_path text f).
Proof.
  intros N. unfold generate_doc, doc_path_of.
  repeat (apply emits_bind; [|intros ?]);
    try apply emits_or_value_error; try apply emits_ret.
  - apply emits_mkdir; simpl; tauto.
  - apply emits_write_file; simpl; auto.
Qed.

Lemma emits_process_body (path : string) (f : Path) :
  path_str f <> path ->
  emits_only (fun ev => ~ touches path ev)
             (process_body fault src_path docs_path f).
Proof.
  intros N. unfold process_body, parse_file.
  apply emits_bind.
  - apply emits_bind; [|intros ?; apply emits_ret].
    apply emits_read_file; simpl; auto.
  - intros p. repeat (apply emits_bind; [|intros ?]);
      apply emits_for_each; intros d _; now apply emits_generate_doc.
Qed.

Lemma emits_process_php_file (path : string) (f : Path) :
  path_str f <> path ->
  emits_only (fun ev => ~ touches path ev)
             (_process_php_file fault src_path docs_path f).
Proof.
  intros N w. unfold _process_php_file.
  destruct (emits_process_body path f N w) as (evs & E & F).
  destruct (process_body fault src_path docs_path f w) as [[e|[]] w1];
    simpl in E.
  - exists (evs ++ [EvPrint (error_line f e)]). split.
    + simpl. rewrite E. now rewrite List.app_assoc.
    + apply Forall_app. split; [exact F|].
      constructor; [simpl; tauto | constructor].
  - now exists evs.
Qed.

Lemma emits_visit (path : string) (f : Path) :
  excluded path ->
  emits_only (fun ev => ~ touches path ev)
             (visit fault src_path docs_path f).
Proof.
  intros Hx. unfold visit.
  destruct (_should_skip_file f) eqn:S; [apply emits_ret|].
  apply emits_bind; [apply emits_or_value_error|intros rel].
  apply emits_bind; [apply emits_print; simpl; tauto|intros _].
  apply emits_process_php_file. now apply untouched_by_other.
Qed.

(** C8. Whatever the tree, the I/O failures and the two roots, a run of the
    driver performs no read of a file whose path contains one of the
    configured exclusion substrings and no write on behalf of such a
    file. *)
Theorem excluded_files_untouched (w : world) (path : string) :
  excluded path ->
  exists evs,
    trace (snd (generate_documentation fault src_path docs_path w))
    = trace w ++ evs /\
    Forall (fun ev => ~ touches path ev) evs.
Proof.
  intros Hx. revert w.
  change (emits_only (fun ev => ~ touches path ev)
                     (generate_documentation fault src_path docs_path)).
  unfold generate_documentation.
  apply emits_bind; [apply emits_print; simpl; tauto|intros _].
  apply emits_bind; [apply emits_mkdir; simpl; tauto|intros _].
  apply emits_bind.
  - intros w. exists []. simpl. now rewrite List.app_nil_r.
  - intros files. apply emits_for_each. intros f _. now apply emits_visit.
Qed.

Lemma strip_parts_app (base l : list string) :
  strip_parts base (base ++ l) = Some l.
Proof.
  induction base as [|b base IH]; simpl; [reflexivity|].
  now rewrite String.eqb_refl.
Qed.

Lemma relative_to_below (base : Path) (rel : list string) :
  relative_to (MkPath (absolute base) (parts base ++ rel)) base
  = Some (MkPath false rel).
Proof.
  unfold relative_to. simpl. rewrite eqb_reflx, strip_parts_app. reflexivity.
Qed.

Lemma with_suffix_name (a : bool) (dir : list string) (name suf : string) :
  with_suffix (MkPath a (dir ++ [name])) suf
  = Some (MkPath a (dir ++ [name_with_suffix name suf])).
Proof.
  unfold with_suffix. simpl. rewrite rev_unit, rev_involutive. reflexivity.
Qed.

Lemma rfind0_dot_php (stem : string) :
  Py.rfind0 "." (stem +:+ ".php") = Some (String.length stem).
Proof.
  induction stem as [|a stem IH]; [reflexivity|].
  change (String a stem +:+ ".php") with (String a (stem +:+ ".php")).
  cbn [Py.rfind0]. now rewrite IH.
Qed.

(** Replacing the extension of [stem.php]. *)
Lemma php_to_md (stem : string) :
  stem <> EmptyString ->
  name_with_suffix (stem +:+ ".php") ".md" = stem +:+ ".md".
Proof.
  intros N. unfold name_with_suffix, suffix, Py.rfind.
  rewrite take_all by lia. rewrite rfind0_dot_php, length_app.
  assert (L : 0 < String.length stem) by (destruct stem; simpl; [congruence|lia]).
  replace (0 <? String.length stem) with true
    by (symmetry; apply Nat.ltb_lt; lia).
  replace (String.length stem <? String.length stem + String.length ".php" - 1)
    with true by (symmetry; apply Nat.ltb_lt; simpl; lia).
  cbn [andb]. rewrite drop_app_length. cbn [Py.truthy].
  replace (String.length stem + String.length ".php" - String.length ".php")
    with (String.length stem) by lia.
  now rewrite take_app_length.
Qed.

Lemma io_inr {A : Type} (failed : exn -> event) (act : M A)
    (w w' : world) (x : A) :
  io fault failed act w = (inr x, w') -> act (tick w) = (inr x, w').
Proof. unfold io. destruct (fault (clock w)); [discriminate | auto]. Qed.

Lemma doc_path_of_run (f rel md : Path) (w : world) :
  relative_to f src_path = Some rel -> with_suffix rel ".md" = Some md ->
  doc_path_of src_path docs_path f w = (inr (joinpath docs_path md), w).
Proof.
  intros Hr Hm. unfold doc_path_of. rewrite bind_run, Hr.
  cbn [or_value_error mret M_ret]. rewrite bind_run, Hm. reflexivity.
Qed.

Lemma generate_doc_inr (text : string) (f rel md : Path) (w w' : world) :
  relative_to f src_path = Some rel -> with_suffix rel ".md" = Some md ->
  generate_doc fault src_path docs_path text f w = (inr tt, w') ->
  trace w' = trace w ++ [EvMkdir (path_str (parent (joinpath docs_path md)));
                         EvWrite (path_str f)
                                 (path_str (joinpath docs_path md)) text] /\
  fs w' = <[path_str (joinpath docs_path md) := text]> (fs w).
Proof.
  intros Hr Hm. unfold generate_doc.
  rewrite bind_run, (doc_path_of_run _ _ _ _ Hr Hm), bind_run.
  destruct (mkdir_parents fault (parent (joinpath docs_path md)) w)
    as [[e|[]] w1] eqn:E1; [discriminate|].
  apply io_inr in E1. injection E1 as <-. intros E2. apply io_inr in E2.
  injection E2 as <-. simpl. split; [|reflexivity].
  now rewrite <- List.app_assoc.
Qed.

Lemma for_each_docs {A : Type} (render : A -> string) (l : list A)
    (f rel md : Path) (w w' : world) :
  relative_to f src_path = Some rel -> with_suffix rel ".md" = Some md ->
  for_each l (fun x => generate_doc fault src_path docs_path (render x) f) w
  = (inr tt, w') ->
  exists evs,
    trace w' = trace w ++ evs /\
    writes evs
    = map (fun text => (path_str f, path_str (joinpath docs_path md), text))
          (map render l) /\
    fs w' !! path_str (joinpath docs_path md)
    = match last (map render l) with
      | Some text => Some text
      | None => fs w !! path_str (joinpath docs_path md)
      end.
Proof.
  intros Hr Hm. revert w. induction l as [|x l IH]; intros w H.
  - injection H as <-. exists []. simpl. now rewrite List.app_nil_r.
  - cbn [for_each] in H. rewrite bind_run in H.
    destruct (generate_doc fault src_path docs_path (render x) f w)
      as [[e|[]] w1] eqn:E1; [discriminate|].
    destruct (generate_doc_inr _ _ _ _ _ _ Hr Hm E1) as [T1 F1].
    destruct (IH _ H) as (evs & T & W & F).
    eexists. split; [|split].
    + rewrite T, T1, <- List.app_assoc. reflexivity.
    + simpl. now rewrite W.
    + rewrite F. cbn [map]. rewrite last_cons.
      destruct (last (map render l)); [reflexivity|].
      rewrite F1. apply lookup_insert_eq.
Qed.

Lemma writes_app (l1 l2 : list event) : writes (l1 ++ l2) = writes l1 ++ writes l2.
Proof.
  induction l1 as [|ev l1 IH]; [reflexivity|].
  destruct ev; simpl; now rewrite IH.
Qed.

(** C5. When a source file [dir/stem.php] below the source root is processed
    without an exception, every declaration found in it is rendered and
    written, classes first, then interfaces, then enums, to the single path
    [dir/stem.md] below the documentation root, and afterwards that file
    holds the text of the last declaration rendered. *)
Theorem declarations_overwrite_one_path
    (dir : list string) (stem content : string) (w w' : world) :
  let php_file :=
    MkPath (absolute src_path) (parts src_path ++ dir ++ [stem +:+ ".php"]) in
  let out :=
    path_str (MkPath (absolute docs_path)
                     (parts docs_path ++ dir ++ [stem +:+ ".md"])) in
  let docs := renders (_parse_content content) in
  stem <> EmptyString ->
  fs w !! path_str php_file = Some content ->
  process_body fault src_path docs_path php_file w = (inr tt, w') ->
  _process_php_file fault src_path docs_path php_file w = (inr tt, w') /\
  exists evs,
    trace w' = trace w ++ evs /\
    writes evs = map (fun text => (path_str php_file, out, text)) docs /\
    forall text, last docs = Some text -> fs w' !! out = Some text.
Proof.
  intros php_file out docs Hstem Hfs Hrun.
  split; [unfold _process_php_file; now rewrite Hrun|].
  assert (Hr : relative_to php_file src_path
               = Some (MkPath false (dir ++ [stem +:+ ".php"])))
    by apply relative_to_below.
  assert (Hm : with_suffix (MkPath false (dir ++ [stem +:+ ".php"])) ".md"
               = Some (MkPath false (dir ++ [stem +:+ ".md"])))
    by (rewrite with_suffix_name, php_to_md; auto).
  assert (Hout : path_str (joinpath docs_path
                                    (MkPath false (dir ++ [stem +:+ ".md"])))
                 = out) by reflexivity.
  unfold process_body, parse_file in Hrun. rewrite !bind_run in Hrun.
  destruct (read_file fault php_file w) as [[e|text] w1] eqn:E0;
    [discriminate|].
  apply io_inr in E0. cbn [fs tick] in E0. rewrite Hfs in E0.
  injection E0 as <- <-. cbn [mret M_ret] in Hrun.
  rewrite bind_run in Hrun.
  destruct (for_each (classes (_parse_content content))
              (fun c => _generate_class_doc fault src_path docs_path c php_file)
              (emit (EvRead (path_str php_file)) (tick w)))
    as [[e|[]] w2] eqn:E1; [discriminate|].
  rewrite bind_run in Hrun.
  destruct (for_each (interfaces (_parse_content content))
              (fun i => _generate_interface_doc fault src_path docs_path i
                                                php_file) w2)
    as [[e|[]] w3] eqn:E2; [discriminate|].
  destruct (for_each_docs class_doc _ _ _ _ _ _ Hr Hm E1) as (ev1 & T1 & W1 & F1).
  destruct (for_each_docs interface_doc _ _ _ _ _ _ Hr Hm E2)
    as (ev2 & T2 & W2 & F2).
  destruct (for_each_docs enum_doc _ _ _ _ _ _ Hr Hm Hrun)
    as (ev3 & T3 & W3 & F3).
  rewrite Hout in *.
  exists ([EvRead (path_str php_file)] ++ ev1 ++ ev2 ++ ev3). split; [|split].
  - rewrite T3, T2, T1. simpl. now rewrite <- !List.app_assoc.
  - rewrite !writes_app, W1, W2, W3. unfold docs, renders.
    now rewrite !map_app.
  - unfold docs, renders. rewrite !last_app. intros text.
    rewrite F3, F2, F1.
    destruct (last (map enum_doc (enums (_parse_content content))));
      [auto|].
    destruct (last (map interface_doc (interfaces (_parse_content content))));
      [auto|].
    destruct (last (map class_doc (classes (_parse_content content))));
      [auto|discriminate].
Qed.

Lemma process_php_file_inr (f : Path) (w : world) :
  fst (_process_php_file fault src_path docs_path f w) = inr tt.
Proof.
  unfold _process_php_file.
  now destruct (process_body fault src_path docs_path f w) as [[e|[]] w1].
Qed.

Lemma visit_run (f rel : Path) (w : world) :
  _should_skip_file f = false -> relative_to f src_path = Some rel ->
  visit fault src_path docs_path f w
  = _process_php_file fault src_path docs_path f
      (emit (EvPrint ("Processing " +:+ path_str rel)) w).
Proof. intros Hs Hr. unfold visit. rewrite Hs, Hr. reflexivity. Qed.

Lemma visit_inr (f : Path) (w : world) :
  relative_to f src_path <> None ->
  fst (visit fault src_path docs_path f w) = inr tt.
Proof.
  intros H. unfold visit. destruct (_should_skip_file f); [reflexivity|].
  destruct (relative_to f src_path) as [rel|]; [|congruence].
  rewrite !bind_run. cbn [or_value_error mret M_ret print].
  apply process_php_file_inr.
Qed.

Lemma for_each_inr {A : Type} (l : list A) (body : A -> M unit) (w : world) :
  (forall x w1, In x l -> fst (body x w1) = inr tt) ->
  fst (for_each l body w) = inr tt.
Proof.
  revert w; induction l as [|x l IH]; intros w H; [reflexivity|].
  cbn [for_each]. rewrite bind_run.
  pose proof (H x w (or_introl eq_refl)) as Hx.
  destruct (body x w) as [[e|[]] w1]; [discriminate Hx|].
  apply IH. intros y w2 Hy. apply H. now right.
Qed.

Lemma rglob_below (w : world) (f : Path) :
  In f (rglob_php src_path w) -> relative_to f src_path <> None.
Proof.
  unfold rglob_php. rewrite filter_In. intros [_ H].
  now destruct (relative_to f src_path).
Qed.

(** Once the documentation root exists the driver runs to its end. *)
Lemma generate_documentation_inr (w : world) :
  fault (clock w) = None ->
  fst (generate_documentation fault src_path docs_path w) = inr tt.
Proof.
  intros H. unfold generate_documentation.
  rewrite bind_run. cbn [print]. rewrite bind_run.
  unfold mkdir_parents at 1. unfold io at 1. cbn [emit clock]. rewrite H.
  rewrite bind_run. apply for_each_inr.
  intros f w1 Hf. apply visit_inr. exact (rglob_below _ _ Hf).
Qed.

End DriverProperties.

Lemma excluded_files_untouched_witness :
  exists evs,
    trace (snd (generate_documentation (fun _ => None) (mk_path "src")
                                       (mk_path "docs") demo_world))
    = trace demo_world ++ evs /\
    Forall (fun ev => ~ touches "src/tests/T.php" ev) evs.
Proof.
  apply (excluded_files_untouched (fun _ => None) (mk_path "src")
                                  (mk_path "docs") demo_world
                                  "src/tests/T.php").
  exists "/tests/". split; [simpl; auto|]. now exists "src", "T.php".
Defined.

Lemma declarations_overwrite_one_path_witness :
  _process_php_file (fun _ => None) (mk_path "src") (mk_path "docs")
                    (mk_path "src/A.php") demo_world
  = (inr tt, demo_after) /\
  exists evs,
    trace demo_after = trace demo_world ++ evs /\
    writes evs
    = map (fun text => ("src/A.php", "docs/A.md", text))
          (renders (_parse_content
             "/** Doc A */ class A extends B { } interface I { } ")) /\
    forall text,
      last (renders (_parse_content
              "/** Doc A */ class A extends B { } interface I { } "))
      = Some text ->
      fs demo_after !! "docs/A.md" = Some text.
Proof.
  apply (declarations_overwrite_one_path
           (fun _ => None) (mk_path "src") (mk_path "docs") [] "A"
           "/** Doc A */ class A extends B { } interface I { } "
           demo_world demo_after).
  - discriminate.
  - vm_compute. reflexivity.
  - vm_compute. reflexivity.
Defined.

(** C6. An exception raised while a file is parsed or rendered never leaves
    [_process_php_file]: whatever its kind, the handler prints one line
    with the file's path and the exception's message on top of the world as
    it was when the exception was raised, so what was written before stays,
    and the loop of the driver goes on with the remaining files.  In
    [demo_world] with the second write for [src/A.php] refused, the
    first document written for that file is still on disk at the end, the
    error line is printed and [src/Z.php] is processed next. *)
Theorem failures_are_caught_per_file :
  (forall fault src_path docs_path f w,
      fst (_process_php_file fault src_path docs_path f w) = inr tt)
  /\
  (forall fault src_path docs_path f w e w1,
      process_body fault src_path docs_path f w = (inl e, w1) ->
      _process_php_file fault src_path docs_path f w
      = (inr tt,
         emit (EvPrint ("Error processing " +:+ path_str f +:+ ": "
                        +:+ exn_str e)) w1))
  /\
  (forall fault src_path docs_path f rest rel w,
      _should_skip_file f = false ->
      relative_to f src_path = Some rel ->
      for_each (f :: rest) (visit fault src_path docs_path) w
      = for_each rest (visit fault src_path docs_path)
          (snd (_process_php_file fault src_path docs_path f
                  (emit (EvPrint ("Processing " +:+ path_str rel)) w))))
  /\
  (let w := snd (generate_documentation write_denied (mk_path "src")
                                        (mk_path "docs") demo_world) in
   fs w !! "docs/A.md"
   = Some ("# A" +:+ nl2 +:+ "Doc A" +:+ nl2 +:+ "**Extends:** `B`" +:+ nl2)
   /\
   trace w
   = [EvPrint "Generating API documentation from src to docs";
      EvMkdir "docs";
      EvPrint "Processing sub/E.php";
      EvRead "src/sub/E.php";
      EvMkdir "docs/sub";
      EvWrite "src/sub/E.php" "docs/sub/E.md"
              ("# E Enum" +:+ nl2 +:+ "**Backing Type:** `int`" +:+ nl2);
      EvPrint "Processing A.php";
      EvRead "src/A.php";
      EvMkdir "docs";
      EvWrite "src/A.php" "docs/A.md"
              ("# A" +:+ nl2 +:+ "Doc A" +:+ nl2 +:+ "**Extends:** `B`"
               +:+ nl2);
      EvMkdir "docs";
      EvWriteFailed "src/A.php" "docs/A.md"
                    (OSError "[Errno 13] Permission denied: 'docs/A.md'");
      EvPrint
        "Error processing src/A.php: [Errno 13] Permission denied: 'docs/A.md'";
      EvPrint "Processing Z.php";
      EvRead "src/Z.php";
      EvMkdir "docs";
      EvWrite "src/Z.php" "docs/Z.md" ("# Z" +:+ nl2)]).
Proof.
  split; [exact process_php_file_inr|]. split; [|split].
  - intros fault src_path docs_path f w e w1 H.
    unfold _process_php_file. now rewrite H.
  - intros fault src_path docs_path f rest rel w Hs Hr.
    cbn [for_each]. rewrite bind_run, (visit_run _ _ _ _ _ _ Hs Hr).
    pose proof (process_php_file_inr fault src_path docs_path f
                  (emit (EvPrint ("Processing " +:+ path_str rel)) w)) as E.
    destruct (_process_php_file fault src_path docs_path f
                (emit (EvPrint ("Processing " +:+ path_str rel)) w))
      as [[e|[]] w1]; [discriminate E|reflexivity].
  - split; vm_compute; reflexivity.
Qed.

(** C7. With a number of command-line arguments other than two (the
    argument vector holds the program name and the arguments), [main] only
    prints the usage message and the process exits with status 1.  With two
    arguments, once the documentation root could be created, the run reaches
    the completion banner and the process exits with status 0, whatever
    fails while single files are processed: the run of [demo_world] with
    a refused write logs an error for [src/A.php] and exits with status 0. *)
Theorem main_exit_status :
  (forall fault argv w,
      length argv <> 3 -> main fault argv w = (1, emit (EvPrint usage) w))
  /\
  (forall fault argv w,
      length argv = 3 -> fault (clock w) = None ->
      fst (main fault argv w) = 0 /\
      last (trace (snd (main fault argv w))) = Some (EvPrint banner))
  /\
  (let r := main write_denied ["gen_api.py"; "src"; "docs"] demo_world in
   fst r = 0 /\
   In (EvPrint
         "Error processing src/A.php: [Errno 13] Permission denied: 'docs/A.md'")
      (trace (snd r))).
Proof.
  split; [|split].
  - intros fault argv w H. unfold main.
    destruct (Nat.eqb_spec (length argv) 3) as [E|_]; [contradiction|].
    reflexivity.
  - intros fault argv w H F. unfold main. rewrite H. cbn [Nat.eqb negb].
    rewrite bind_run.
    pose proof (generate_documentation_inr fault
                  (mk_path (nth 1 argv EmptyString))
                  (mk_path (nth 2 argv EmptyString)) w F) as E.
    destruct (generate_documentation fault (mk_path (nth 1 argv EmptyString))
                (mk_path (nth 2 argv EmptyString)) w) as [[e|[]] w1];
      [discriminate E|].
    cbn [print fst snd emit trace]. split; [reflexivity|apply last_snoc].
  - split; [vm_compute; reflexivity|].
    vm_compute. tauto.
Qed.

(** C9. For every source text the extraction result has empty [functions]
    and [constants] lists: the parser creates both entries and never adds to
    them. *)
Theorem functions_and_constants_empty (content : string) :
  functions (_parse_content content) = [] /\
  constants (_parse_content content) = [].
Proof. split; reflexivity. Qed.

(** * Further properties *)

(** ** The backward lookup: shape, bounds, stability *)

Lemma slice_split (content : string) (s n : nat) :
  s + n <= String.length content ->
  content = Py.take s content +:+ Py.slice s (s + n) content
            +:+ Py.drop (s + n) content.
Proof.
  intros L. unfold Py.slice. replace (s + n - s) with n by lia.
  rewrite <- (take_drop s content) at 1. f_equal.
  rewrite <- (take_drop n (Py.drop s content)) at 1. f_equal.
  now rewrite drop_drop.
Qed.

Lemma closer_after_opener (content : string) (s e : nat) :
  occurs_at "/**" content s -> occurs_at "*/" content e -> s <= e ->
  s + 2 <= e.
Proof.
  intros Hs He L. destruct (Nat.le_gt_cases (s + 2) e) as [?|G]; [assumption|].
  exfalso. apply occurs_at_iff in He as [_ He].
  destruct Hs as (pre & post & -> & <-).
  assert (e = String.length pre \/ e = String.length pre + 1) as [->| ->]
    by lia.
  - rewrite drop_app_length in He. discriminate He.
  - rewrite <- drop_drop, drop_app_length in He. discriminate He.
Qed.

Lemma block_shape (content : string) (s e : nat) :
  occurs_at "/**" content s -> occurs_at "*/" content e -> s <= e ->
  Py.startswith "/**" (Py.slice s (e + 2) content) = true /\
  Py.endswith "*/" (Py.slice s (e + 2) content) = true /\
  String.length (Py.slice s (e + 2) content) = e + 2 - s.
Proof.
  intros Hs He L. pose proof (closer_after_opener _ _ _ Hs He L) as G.
  pose proof (occurs_at_bound _ _ _ He) as B. simpl in B.
  apply occurs_at_iff in He as [_ He]. apply startswith_spec in He as [q He].
  apply occurs_at_iff in Hs as [_ Hs]. apply startswith_spec in Hs as [r Hs].
  unfold Py.slice. split; [|split].
  - rewrite Hs, take_app_ge by (simpl; lia). apply startswith_app.
  - replace (e + 2 - s) with ((e - s) + 2) by lia.
    rewrite take_add, drop_drop. replace (s + (e - s)) with e by lia.
    rewrite He.
    change (Py.take 2 ("*/" +:+ q)) with "*/". apply endswith_app.
  - rewrite length_take, length_drop. lia.
Qed.

(** X1. A doc-comment returned by the lookup is empty, or it is a piece of
    the content that starts with the opener, ends with the closer and has at
    least four characters. *)
Theorem phpdoc_before_shape (content : string) (p : nat) :
  _extract_phpdoc_before content p = EmptyString \/
  (Py.startswith "/**" (_extract_phpdoc_before content p) = true /\
   Py.endswith "*/" (_extract_phpdoc_before content p) = true /\
   4 <= String.length (_extract_phpdoc_before content p) /\
   has_substring (_extract_phpdoc_before content p) content).
Proof.
  unfold _extract_phpdoc_before.
  destruct (Py.rfind "/**" content p) as [s|] eqn:R; [|now left].
  destruct (Py.find "*/" content s) as [e|] eqn:F; [|now left].
  right. apply rfind_Some in R as [[Hs _] _].
  apply find_Some in F as [[He L] _].
  destruct (block_shape _ _ _ Hs He L) as (S & E & Len).
  pose proof (closer_after_opener _ _ _ Hs He L) as G.
  pose proof (occurs_at_bound _ _ _ He) as B. simpl in B.
  split; [exact S|]. split; [exact E|]. split.
  - rewrite Len. lia.
  - exists (Py.take s content), (Py.drop (e + 2) content).
    replace (e + 2) with (s + (e + 2 - s)) by lia.
    apply slice_split. lia.
Qed.

(** X2. Before position 3 there is no room for an opener, so the lookup
    returns the empty string; a position past the end of the content is
    treated as the end. *)
Theorem phpdoc_before_bounds (content : string) (p : nat) :
  (p < 3 -> _extract_phpdoc_before content p = EmptyString) /\
  (String.length content <= p ->
   _extract_phpdoc_before content p
   = _extract_phpdoc_before content (String.length content)).
Proof.
  split.
  - intros L. unfold _extract_phpdoc_before.
    destruct (Py.rfind "/**" content p) as [s|] eqn:R; [|reflexivity].
    apply rfind_Some in R as [[_ R] _]. simpl in R. lia.
  - intros L. unfold _extract_phpdoc_before, Py.rfind.
    now rewrite !take_all by lia.
Qed.

(** X3. Two positions with no opener ending between them get the same
    doc-comment: the lookup does not care what else lies between a block and
    the position. *)
Theorem phpdoc_before_stable (content : string) (p q : nat) :
  p <= q ->
  (forall s, occurs_at "/**" content s -> ~ (p < s + 3 <= q)) ->
  _extract_phpdoc_before content p = _extract_phpdoc_before content q.
Proof.
  intros L H. unfold _extract_phpdoc_before.
  assert (E : Py.rfind "/**" content p = Py.rfind "/**" content q).
  { destruct (Py.rfind "/**" content q) as [s|] eqn:Q.
    - apply rfind_last_opener. apply rfind_last_opener in Q.
      destruct Q as [[Q1 Q2] Q3]. split.
      + split; [exact Q1|]. specialize (H s Q1). lia.
      + intros s' [A B]. apply Q3. split; [exact A|lia].
    - destruct (Py.rfind "/**" content p) as [s|] eqn:P; [|reflexivity].
      exfalso. apply rfind_Some in P as [[P1 P2] _]. simpl in P2.
      apply (rfind_None _ _ _ Q s P1). simpl. lia. }
  now rewrite E.
Qed.

Lemma phpdoc_before_stable_witness :
  _extract_phpdoc_before inherited_php 16
  = _extract_phpdoc_before inherited_php 28.
Proof.
  apply (phpdoc_before_stable inherited_php 16 28); [lia|].
  intros s Hs B. apply occurs_at_iff in Hs as [_ Hs].
  assert (s < 26) as L by lia.
  do 26 (destruct s as [|s]; [simpl in B; try lia; discriminate Hs|]).
  lia.
Defined.

(** ** The normalisation: what its output looks like *)

Lemma rstrip_head (a : ascii) (t : string) :
  Py.isspace a = false -> Py.rstrip (String a t) = String a (Py.rstrip t).
Proof.
  intros H. cbn [Py.rstrip]. rewrite H. now destruct (Py.rstrip t).
Qed.

Lemma rstrip_idem (s : string) : Py.rstrip (Py.rstrip s) = Py.rstrip s.
Proof.
  induction s as [|a s IH]; [reflexivity|]. cbn [Py.rstrip].
  destruct (Py.rstrip s) as [|b r] eqn:E.
  - destruct (Py.isspace a) eqn:Sp; [reflexivity|].
    cbn [Py.rstrip]. now rewrite Sp.
  - cbn [Py.rstrip] in IH |- *. now rewrite IH.
Qed.

Lemma lstrip_head (s : string) :
  Py.lstrip s = EmptyString \/
  exists a t, Py.lstrip s = String a t /\ Py.isspace a = false.
Proof.
  induction s as [|a s IH]; [now left|]. simpl.
  destruct (Py.isspace a) eqn:Sp; [exact IH|]. right. now exists a, s.
Qed.

Lemma strip_idem (s : string) : Py.strip (Py.strip s) = Py.strip s.
Proof.
  unfold Py.strip. destruct (lstrip_head s) as [->|(a & t & -> & Sp)].
  - reflexivity.
  - rewrite (rstrip_head _ _ Sp). cbn [Py.lstrip]. rewrite Sp.
    rewrite (rstrip_head _ _ Sp). now rewrite rstrip_idem.
Qed.

Lemma lstrip_all_chars (P : ascii -> bool) (s : string) :
  all_chars P s = true -> all_chars P (Py.lstrip s) = true.
Proof.
  induction s as [|a s IH]; [reflexivity|]. simpl.
  destruct (Py.isspace a); [|tauto].
  rewrite andb_true_iff. intros [_ H]. auto.
Qed.

Lemma rstrip_all_chars (P : ascii -> bool) (s : string) :
  all_chars P s = true -> all_chars P (Py.rstrip s) = true.
Proof.
  induction s as [|a s IH]; [reflexivity|].
  cbn [Py.rstrip all_chars]. rewrite andb_true_iff. intros [Ha H].
  specialize (IH H). destruct (Py.rstrip s) as [|b r].
  - destruct (Py.isspace a); [reflexivity|]. simpl. now rewrite Ha.
  - cbn [all_chars] in IH |- *. now rewrite Ha, IH.
Qed.

Lemma strip_all_chars (P : ascii -> bool) (s : string) :
  all_chars P s = true -> all_chars P (Py.strip s) = true.
Proof. intros H. now apply rstrip_all_chars, lstrip_all_chars. Qed.

Lemma split_pieces_lack (c : ascii) (s : string) :
  Forall (fun x => lacks c x = true) (Py.split c s).
Proof.
  induction s as [|a s IH]; [repeat constructor|]. cbn [Py.split].
  destruct (Ascii.eqb_spec a c) as [->|N].
  - constructor; [reflexivity | exact IH].
  - destruct (Py.split c s) as [|h t]; [repeat constructor|].
    + unfold lacks. simpl. now destruct (Ascii.eqb_spec a c).
    + inversion IH as [|? ? Hh Ht]; subst. constructor; [|exact Ht].
      unfold lacks in *. simpl. rewrite Hh.
      now destruct (Ascii.eqb_spec a c).
Qed.

Lemma split_whole (c : ascii) (x : string) :
  lacks c x = true -> Py.split c x = [x].
Proof.
  induction x as [|a x IH]; [reflexivity|]. unfold lacks. cbn [all_chars].
  rewrite andb_true_iff, negb_true_iff. intros [Ha H].
  cbn [Py.split]. rewrite Ha. now rewrite (IH H).
Qed.

Lemma split_at_sep (c : ascii) (x rest : string) :
  lacks c x = true ->
  Py.split c (x +:+ String c rest) = x :: Py.split c rest.
Proof.
  induction x as [|a x IH]; intros H.
  - cbn [String.append Py.split]. now rewrite Ascii.eqb_refl.
  - unfold lacks in H. cbn [all_chars] in H.
    apply andb_true_iff in H as [Ha H]. apply negb_true_iff in Ha.
    change (String a x +:+ String c rest)
      with (String a (x +:+ String c rest)).
    cbn [Py.split]. rewrite Ha. now rewrite (IH H).
Qed.

(** Splitting what was joined gives the pieces back. *)
Lemma split_join (c : ascii) (l : list string) :
  l <> [] -> Forall (fun x => lacks c x = true) l ->
  Py.split c (Py.join (String c EmptyString) l) = l.
Proof.
  induction l as [|x l IH]; [congruence|]. intros _ H.
  inversion H as [|? ? Hx Hl]; subst. destruct l as [|y l].
  - simpl. now apply split_whole.
  - assert (E : Py.join (String c EmptyString) (x :: y :: l)
                = x +:+ String c (Py.join (String c EmptyString) (y :: l)))
      by reflexivity.
    rewrite E, (split_at_sep _ _ _ Hx). f_equal.
    apply IH; [discriminate|exact Hl].
Qed.

Lemma kept_lines_clean (text : string) :
  Forall clean_line
         (List.filter (fun line => keep_line line)
                      (map Py.strip (Py.split newline text))) /\
  Forall (fun x => lacks newline x = true)
         (List.filter (fun line => keep_line line)
                      (map Py.strip (Py.split newline text))).
Proof.
  split; apply List.Forall_forall; intros y Hy;
    apply filter_In in Hy as [Hy K];
    apply in_map_iff in Hy as (x & <- & Hx).
  - unfold keep_line in K. apply andb_true_iff in K as [K1 K2].
    apply negb_true_iff in K2. repeat split; [|apply strip_idem|exact K2].
    intros E. rewrite E in K1. discriminate K1.
  - apply strip_all_chars.
    pose proof (split_pieces_lack newline text) as F.
    rewrite List.Forall_forall in F. now apply F.
Qed.

Lemma joined_lines_clean (text : string) :
  Py.join nl (List.filter (fun line => keep_line line)
                          (map Py.strip (Py.split newline text)))
  = EmptyString \/
  Forall clean_line
    (Py.split newline
       (Py.join nl (List.filter (fun line => keep_line line)
                                (map Py.strip (Py.split newline text))))).
Proof.
  destruct (kept_lines_clean text) as [C N].
  destruct (List.filter (fun line => keep_line line)
                        (map Py.strip (Py.split newline text))) as [|y l] eqn:E.
  - now left.
  - right. unfold nl, newline in *. rewrite split_join; [exact C|discriminate|exact N].
Qed.

(** X4. Whatever the input, the normalised text is empty or consists of
    lines that are not empty, carry no leading or trailing white space and
    do not start with [*]. *)
Theorem format_phpdoc_lines_clean (phpdoc : string) :
  _format_phpdoc phpdoc = EmptyString \/
  Forall clean_line (Py.split newline (_format_phpdoc phpdoc)).
Proof.
  unfold _format_phpdoc. destruct (Py.truthy phpdoc); [|now left].
  cbn [negb]. apply joined_lines_clean.
Qed.

Lemma format_delimited (body : string) :
  _format_phpdoc ("/**" +:+ body +:+ "*/")
  = Py.join nl (List.filter (fun line => keep_line line)
                            (map Py.strip (Py.split newline body))).
Proof.
  unfold _format_phpdoc.
  change (Py.truthy ("/**" +:+ body +:+ "*/")) with true. cbn [negb].
  rewrite strip_delimited.
  change (Py.startswith "/**" ("/**" +:+ body +:+ "*/")) with true. cbv iota.
  change (Py.drop 3 ("/**" +:+ body +:+ "*/")) with (body +:+ "*/").
  rewrite endswith_app, length_app.
  replace (String.length body + String.length "*/" - 2)
    with (String.length body) by (simpl; lia).
  now rewrite take_app_length.
Qed.

(** X5. A doc-comment written in the usual PHPDoc layout, every line of
    its body being blank or starting (after indentation) with [*], is
    rendered as empty text: the normalisation drops all of its content. *)
Theorem format_phpdoc_drops_starred_lines (body : string) :
  Forall (fun line => discarded line = true) (Py.split newline body) ->
  _format_phpdoc ("/**" +:+ body +:+ "*/") = EmptyString.
Proof.
  intros H. rewrite format_delimited, filter_map_comm.
  replace (List.filter (fun x => keep_line (Py.strip x)) (Py.split newline body))
    with (@nil string); [reflexivity|].
  symmetry. induction H as [|x l Hx Hl IH]; [reflexivity|].
  simpl. rewrite keep_line_strip, Hx. exact IH.
Qed.

Lemma format_phpdoc_drops_starred_lines_witness :
  _format_phpdoc ("/**" +:+ (nl +:+ " * Summary of the class." +:+ nl
                           +:+ " *" +:+ nl +:+ " * @return int" +:+ nl +:+ " ")
                  +:+ "*/")
  = EmptyString.
Proof.
  apply (format_phpdoc_drops_starred_lines
           (nl +:+ " * Summary of the class." +:+ nl
            +:+ " *" +:+ nl +:+ " * @return int" +:+ nl +:+ " ")).
  vm_compute. repeat constructor.
Defined.

(** ** The renderer: documents as a sequence of parts *)

Lemma add_doc_paragraph (content doc : string) :
  add_doc content doc = content +:+ doc_paragraph doc.
Proof.
  unfold add_doc, doc_paragraph. destruct (Py.truthy doc).
  - reflexivity.
  - now rewrite PyFacts.app_nil_r.
Qed.

Lemma add_method_entry (content : string) (m : method_info) :
  add_method content m = content +:+ method_entry m.
Proof.
  unfold add_method, method_entry, optional_line.
  rewrite add_doc_paragraph.
  destruct (some_truthy (method_return_type m));
    now rewrite ?PyFacts.app_nil_r, ?PyFacts.app_assoc.
Qed.

Lemma add_property_entry (content : string) (p : property_info) :
  add_property content p = content +:+ property_entry p.
Proof.
  unfold add_property, property_entry. rewrite add_doc_paragraph.
  now rewrite ?PyFacts.app_assoc.
Qed.

Lemma add_case_entry (content : string) (c : case_info) :
  add_case content c = content +:+ case_entry c.
Proof.
  unfold add_case, case_entry. rewrite add_doc_paragraph.
  now rewrite ?PyFacts.app_assoc.
Qed.

(** A loop that appends one entry per element appends their concatenation. *)
Lemma fold_left_entries {A : Type} (step : string -> A -> string)
    (entry : A -> string) (l : list A) (content : string) :
  (forall acc x, step acc x = acc +:+ entry x) ->
  fold_left step l content = content +:+ concat_text (map entry l).
Proof.
  intros H. revert content. induction l as [|x l IH]; intros content; simpl.
  - now rewrite PyFacts.app_nil_r.
  - now rewrite IH, H, PyFacts.app_assoc.
Qed.

(** X6. Each rendered document is its heading followed, in this order, by
    the doc-comment paragraph, the optional lines of its kind and one
    section per non-empty member list with one entry per member in the
    order of the list. *)
Theorem documents_are_sequences_of_parts :
  (forall c : class_info,
      class_doc c
      = "# " +:+ class_name c +:+ nl2
        +:+ doc_paragraph (class_docstring c)
        +:+ optional_line "Extends" (class_extends c)
        +:+ names_line "Implements" (class_implements c)
        +:+ members_section "Methods" (map method_entry (class_methods c))
        +:+ members_section "Properties"
              (map property_entry (class_properties c))) /\
  (forall i : interface_info,
      interface_doc i
      = "# " +:+ interface_name i +:+ " Interface" +:+ nl2
        +:+ doc_paragraph (interface_docstring i)
        +:+ names_line "Extends" (interface_extends i)
        +:+ members_section "Methods"
              (map method_entry (interface_methods i))) /\
  (forall e : enum_info,
      enum_doc e
      = "# " +:+ enum_name e +:+ " Enum" +:+ nl2
        +:+ doc_paragraph (enum_docstring e)
        +:+ optional_line "Backing Type" (enum_backing_type e)
        +:+ members_section "Cases" (map case_entry (enum_cases e))).
Proof.
  split; [|split].
  - intros c. unfold class_doc, add_methods, members_section.
    destruct (class_properties c) as [|p ps];
      destruct (class_methods c) as [|m ms]; cbn [map];
      rewrite ?(fold_left_entries add_property property_entry _ _
                  add_property_entry),
              ?(fold_left_entries add_method method_entry _ _
                  add_method_entry), add_doc_paragraph;
      unfold optional_line, names_line;
      destruct (some_truthy (class_extends c));
      destruct (class_implements c);
      rewrite ?PyFacts.app_nil_r, ?PyFacts.app_assoc; reflexivity.
  - intros i. unfold interface_doc, add_methods, members_section.
    destruct (interface_methods i) as [|m ms]; cbn [map];
      rewrite ?(fold_left_entries add_method method_entry _ _
                  add_method_entry), add_doc_paragraph;
      unfold names_line; destruct (interface_extends i);
      rewrite ?PyFacts.app_nil_r, ?PyFacts.app_assoc; reflexivity.
  - intros e. unfold enum_doc, members_section.
    destruct (enum_cases e) as [|x xs]; cbn [map];
      rewrite ?(fold_left_entries add_case case_entry _ _ add_case_entry),
              add_doc_paragraph;
      unfold optional_line; destruct (some_truthy (enum_backing_type e));
      rewrite ?PyFacts.app_nil_r, ?PyFacts.app_assoc; reflexivity.
Qed.

(** ** The extractor: what can and cannot be found *)

Lemma all_chars_take (P : ascii -> bool) (n : nat) (s : string) :
  all_chars P s = true -> all_chars P (Py.take n s) = true.
Proof.
  revert s; induction n as [|n IH]; intros [|a s]; simpl; auto.
  rewrite !andb_true_iff. intros [H1 H2]. auto.
Qed.

Lemma mem_not_lacking (a : ascii) (l : string) :
  mem a (chars l) = true -> lacks a l = false.
Proof.
  unfold lacks, mem. induction l as [|b l IH]; simpl; [discriminate|].
  rewrite (Ascii.eqb_sym b a).
  destruct (Ascii.eqb a b); simpl; [reflexivity|exact IH].
Qed.

(** A success of a pattern that needs a character consumes that character. *)
Lemma rmatch_needs (r : regex) (a : ascii) (s : string) (g : captures)
    (n : nat) (g' : captures) :
  needs r a = true -> In (n, g') (rmatch r s g) ->
  lacks a (Py.take n s) = false.
Proof.
  revert s g n g'.
  induction r as [l|c|c|c|r1 IH1 r2 IH2|r1 IH1 r2 IH2|r1 IH1|k r1 IH1];
    intros s g n g' N H; try discriminate N.
  - simpl in H. destruct (Py.startswith l s) eqn:E; [|contradiction].
    destruct H as [[= <- <-]|[]]. rewrite (startswith_take _ _ E).
    now apply mem_not_lacking.
  - apply in_seq_match in H as (n1 & g1 & n2 & H1 & H2 & ->).
    unfold lacks. rewrite take_add, all_chars_app. simpl in N.
    apply orb_true_iff in N as [N|N].
    + specialize (IH1 _ _ _ _ N H1). unfold lacks in IH1. now rewrite IH1.
    + specialize (IH2 _ _ _ _ N H2). unfold lacks in IH2. rewrite IH2.
      apply andb_false_r.
  - simpl in N. apply andb_true_iff in N as [N1 N2]. simpl in H.
    apply in_app_iff in H as [H|H]; eauto.
  - apply in_group_match in H as [g1 H]. eauto.
Qed.

(** A text without a character the pattern needs has no match. *)
Lemma finditer_needs (r : regex) (a : ascii) (t : string) :
  needs r a = true -> lacks a t = true -> finditer r t = [].
Proof.
  intros N L. unfold finditer. apply scan_nil. intros n.
  destruct (rmatch r (Py.drop n t) []) as [|[k g'] rest] eqn:E; [reflexivity|].
  assert (I : In (k, g') (rmatch r (Py.drop n t) [])) by (rewrite E; now left).
  pose proof (rmatch_needs _ _ _ _ _ _ N I) as F.
  unfold lacks in *.
  rewrite (all_chars_take _ k _ (all_chars_drop _ n _ L)) in F. discriminate F.
Qed.

(** X7. A span without an opening parenthesis yields no method, a span
    without a dollar sign or without a semicolon yields no property, and a
    span with neither a comma nor a semicolon yields no enum case. *)
Theorem member_extractors_need_punctuation (content : string) (a b : nat) :
  (lacks "("%char (Py.slice a b content) = true ->
   _extract_methods content a b = []) /\
  (lacks "$"%char (Py.slice a b content) = true \/
   lacks ";"%char (Py.slice a b content) = true ->
   _extract_properties content a b = []) /\
  (lacks ","%char (Py.slice a b content) = true ->
   lacks ";"%char (Py.slice a b content) = true ->
   _extract_enum_cases content a b = []).
Proof.
  split; [|split].
  - intros L. unfold _extract_methods.
    now rewrite (finditer_needs method_pattern "("%char _ eq_refl L).
  - intros [L|L]; unfold _extract_properties.
    + now rewrite (finditer_needs property_pattern "$"%char _ eq_refl L).
    + now rewrite (finditer_needs property_pattern ";"%char _ eq_refl L).
  - intros L1 L2. unfold _extract_enum_cases, finditer.
    rewrite scan_nil; [reflexivity|]. intros n. apply case_no_match.
    apply all_chars_drop. unfold lacks in L1, L2. unfold no_sep, mem.
    revert L1 L2. generalize (Py.slice a b content) as t.
    induction t as [|c t IH]; [reflexivity|]. cbn [all_chars existsb].
    rewrite !andb_true_iff, !negb_true_iff. intros [A1 B1] [A2 B2].
    rewrite A1, A2. auto.
Qed.

Lemma lit_seq_no_match (l : string) (r : regex) (t : string) (g : captures) :
  Py.startswith l t = false -> rmatch (Seq (Lit l) r) t g = [].
Proof. intros H. simpl. now rewrite H. Qed.

(** A pattern that starts with a keyword only matches where the keyword is. *)
Lemma keyword_needed (l : string) (r : regex) (content : string) :
  ~ has_substring l content -> finditer (Seq (Lit l) r) content = [].
Proof.
  intros H. unfold finditer. apply scan_nil. intros n.
  apply lit_seq_no_match.
  destruct (Py.startswith l (Py.drop n content)) eqn:E; [|reflexivity].
  exfalso. apply H. apply startswith_spec in E as [post E].
  exists (Py.take n content), post. rewrite <- E. symmetry. apply take_drop.
Qed.

(** X8. A text that does not contain the word [class] yields no class, and
    likewise for [interface] and [enum]; in particular the empty text yields
    an empty result. *)
Theorem no_keyword_no_declaration (content : string) :
  (~ has_substring "class" content -> classes (_parse_content content) = []) /\
  (~ has_substring "interface" content ->
   interfaces (_parse_content content) = []) /\
  (~ has_substring "enum" content -> enums (_parse_content content) = []) /\
  _parse_content EmptyString = MkParsed [] [] [] [] [].
Proof.
  repeat split.
  - intros H. simpl. unfold class_pattern.
    now rewrite (keyword_needed _ _ _ H).
  - intros H. simpl. unfold interface_pattern.
    now rewrite (keyword_needed _ _ _ H).
  - intros H. simpl. unfold enum_pattern.
    now rewrite (keyword_needed _ _ _ H).
Qed.

(** ** The extractor: captured names *)

(** A success only adds groups in front of those it started with. *)
Lemma rmatch_extends (r : regex) (s : string) (g : captures)
    (n : nat) (g' : captures) :
  In (n, g') (rmatch r s g) -> exists added, g' = added ++ g.
Proof.
  revert s g n g'.
  induction r as [l|c|c|c|r1 IH1 r2 IH2|r1 IH1 r2 IH2|r1 IH1|k r1 IH1];
    intros s g n g' H.
  - simpl in H. destruct (Py.startswith l s); [|contradiction].
    destruct H as [[= <- <-]|[]]. now exists [].
  - simpl in H. destruct s as [|a s]; [contradiction|].
    destruct (in_cls c a); [|contradiction].
    destruct H as [[= <- <-]|[]]. now exists [].
  - simpl in H. apply in_map_iff in H as (k & [= <- <-] & _). now exists [].
  - simpl in H. apply in_map_iff in H as (k & [= <- <-] & _). now exists [].
  - apply in_seq_match in H as (n1 & g1 & n2 & H1 & H2 & ->).
    destruct (IH1 _ _ _ _ H1) as [a1 ->]. destruct (IH2 _ _ _ _ H2) as [a2 ->].
    exists (a2 ++ a1). now rewrite List.app_assoc.
  - simpl in H. apply in_app_iff in H as [H|H]; eauto.
  - simpl in H. apply in_app_iff in H as [H|[[= <- <-]|[]]]; eauto.
    now exists [].
  - simpl in H. apply in_map_iff in H as ([n1 g1] & [= <- <-] & H).
    destruct (IH1 _ _ _ _ H) as [a1 ->].
    now exists ((k, Py.take n1 s) :: a1).
Qed.

(** Every group of a success was there before or holds a text consumed by
    one of the sub-patterns captured under its number. *)
Lemma rmatch_captures (r : regex) (s : string) (g : captures)
    (n : nat) (g' : captures) (k : nat) (v : string) :
  In (n, g') (rmatch r s g) -> In (k, v) g' ->
  In (k, v) g \/ exists r1, In r1 (subs r k) /\ text_of r1 v.
Proof.
  revert s g n g'.
  induction r as [l|c|c|c|r1 IH1 r2 IH2|r1 IH1 r2 IH2|r1 IH1|j r1 IH1];
    intros s g n g' H I.
  - simpl in H. destruct (Py.startswith l s); [|contradiction].
    destruct H as [[= <- <-]|[]]. now left.
  - simpl in H. destruct s as [|a s]; [contradiction|].
    destruct (in_cls c a); [|contradiction].
    destruct H as [[= <- <-]|[]]. now left.
  - simpl in H. apply in_map_iff in H as (m & [= <- <-] & _). now left.
  - simpl in H. apply in_map_iff in H as (m & [= <- <-] & _). now left.
  - apply in_seq_match in H as (n1 & g1 & n2 & H1 & H2 & ->).
    destruct (IH2 _ _ _ _ H2 I) as [I1|(r0 & R & T)].
    + destruct (IH1 _ _ _ _ H1 I1) as [I0|(r0 & R & T)]; [now left|].
      right. exists r0. split; [|exact T]. simpl. apply in_app_iff. now left.
    + right. exists r0. split; [|exact T]. simpl. apply in_app_iff. now right.
  - simpl in H. apply in_app_iff in H as [H|H].
    + destruct (IH1 _ _ _ _ H I) as [I0|(r0 & R & T)]; [now left|].
      right. exists r0. split; [|exact T]. simpl. apply in_app_iff. now left.
    + destruct (IH2 _ _ _ _ H I) as [I0|(r0 & R & T)]; [now left|].
      right. exists r0. split; [|exact T]. simpl. apply in_app_iff. now right.
  - simpl in H. apply in_app_iff in H as [H|[[= <- <-]|[]]]; [|now left].
    destruct (IH1 _ _ _ _ H I) as [I0|(r0 & R & T)]; [now left|].
    right. now exists r0.
  - simpl in H. apply in_map_iff in H as ([n1 g1] & [= <- <-] & H).
    destruct I as [[= <- <-]|I].
    + right. exists r1. split.
      * simpl. rewrite Nat.eqb_refl. now left.
      * split; [exact (rmatch_alphabet _ _ _ _ _ H)|].
        intros N E. apply rmatch_first in H as [[_ H]|[P (a & s' & -> & _)]];
          [congruence|].
        destruct n1; [lia|discriminate E].
    + destruct (IH1 _ _ _ _ H I) as [I0|(r0 & R & T)]; [now left|].
      right. exists r0. split; [|exact T]. simpl. apply in_app_iff. now right.
Qed.

(** A group that every match sets is among the groups of a success. *)
Lemma rmatch_binds (r : regex) (s : string) (g : captures)
    (n : nat) (g' : captures) (k : nat) :
  binds r k = true -> In (n, g') (rmatch r s g) -> exists v, In (k, v) g'.
Proof.
  revert s g n g'.
  induction r as [l|c|c|c|r1 IH1 r2 IH2|r1 IH1 r2 IH2|r1 IH1|j r1 IH1];
    intros s g n g' B H; try discriminate B.
  - apply in_seq_match in H as (n1 & g1 & n2 & H1 & H2 & ->).
    simpl in B. apply orb_true_iff in B as [B|B].
    + destruct (IH1 _ _ _ _ B H1) as [v I].
      destruct (rmatch_extends _ _ _ _ _ H2) as [added ->].
      exists v. apply in_app_iff. now right.
    + exact (IH2 _ _ _ _ B H2).
  - simpl in B. apply andb_true_iff in B as [B1 B2]. simpl in H.
    apply in_app_iff in H as [H|H]; eauto.
  - simpl in H. apply in_map_iff in H as ([n1 g1] & [= <- <-] & H).
    simpl in B. apply orb_true_iff in B as [B|B].
    + apply Nat.eqb_eq in B as ->. exists (Py.take n1 s). now left.
    + destruct (IH1 _ _ _ _ B H) as [v I]. exists v. now right.
Qed.

Lemma lookup_group_In (k : nat) (g : captures) (v : string) :
  lookup_group k g = Some v -> In (k, v) g.
Proof.
  induction g as [|[j w] g IH]; simpl; [discriminate|].
  destruct (Nat.eqb_spec j k) as [->|_].
  - intros [= ->]. now left.
  - intros H. right. auto.
Qed.

Lemma In_lookup_group (k : nat) (g : captures) (v : string) :
  In (k, v) g -> exists w, lookup_group k g = Some w.
Proof.
  induction g as [|[j w] g IH]; simpl; [contradiction|].
  destruct (Nat.eqb_spec j k) as [->|N]; [now exists w|].
  intros [[= -> _]|H]; [congruence|auto].
Qed.

(** The text of a group of a match was consumed by a sub-pattern captured
    under its number. *)
Lemma group_text (r : regex) (t : string) (m : rematch) (k : nat) (v : string) :
  In m (finditer r t) -> group k m = Some v ->
  exists r1, In r1 (subs r k) /\ text_of r1 v.
Proof.
  intros H G. apply finditer_sound in H. apply lookup_group_In in G.
  destruct (rmatch_captures _ _ _ _ _ _ _ H G) as [[]|E]. exact E.
Qed.

Lemma group_bound (r : regex) (t : string) (m : rematch) (k : nat) :
  binds r k = true -> In m (finditer r t) -> exists v, group k m = Some v.
Proof.
  intros B H. apply finditer_sound in H.
  destruct (rmatch_binds _ _ _ _ _ _ B H) as [v I].
  exact (In_lookup_group _ _ _ I).
Qed.

Lemma word_text (v : string) : text_of (Plus CWord) v -> identifier v.
Proof. intros [A N]. split; [now apply N | exact A]. Qed.

(** A group captured only as [(\w+)] holds an identifier. *)
Lemma group_identifier (r : regex) (t : string) (m : rematch)
    (k : nat) (v : string) :
  (forall r1, In r1 (subs r k) -> r1 = Plus CWord) ->
  In m (finditer r t) -> group k m = Some v -> identifier v.
Proof.
  intros S H G. destruct (group_text _ _ _ _ _ H G) as (r1 & R & T).
  rewrite (S r1 R) in T. now apply word_text.
Qed.

Lemma group_str_identifier (r : regex) (t : string) (m : rematch) (k : nat) :
  (forall r1, In r1 (subs r k) -> r1 = Plus CWord) -> binds r k = true ->
  In m (finditer r t) -> identifier (group_str k m).
Proof.
  intros S B H. destruct (group_bound _ _ _ _ B H) as [v G].
  unfold group_str. rewrite G. exact (group_identifier _ _ _ _ _ S H G).
Qed.

Lemma group_opt_identifier (r : regex) (t : string) (m : rematch)
    (k : nat) (v : string) :
  (forall r1, In r1 (subs r k) -> r1 = Plus CWord) ->
  In m (finditer r t) -> group_opt k m = Some v -> identifier v.
Proof.
  intros S H G. unfold group_opt in G.
  destruct (group k m) as [w|] eqn:E; [|discriminate].
  destruct (Py.truthy w); [|discriminate]. injection G as <-.
  exact (group_identifier _ _ _ _ _ S H E).
Qed.

Ltac only_word := simpl; intros ? [<-|[]]; reflexivity.

(** X9. Every name the extractor returns is an identifier, a non-empty
    string of word characters: the names of classes, interfaces and enums,
    the parent of a class, the backing type of an enum, and, for every span,
    the names of methods, properties and cases and the return types. *)
Theorem extracted_names_are_identifiers (content : string) :
  Forall (fun c => identifier (class_name c) /\
                   forall t, class_extends c = Some t -> identifier t)
         (classes (_parse_content content)) /\
  Forall (fun i => identifier (interface_name i))
         (interfaces (_parse_content content)) /\
  Forall (fun e => identifier (enum_name e) /\
                   forall t, enum_backing_type e = Some t -> identifier t)
         (enums (_parse_content content)) /\
  (forall a b,
      Forall (fun m => identifier (method_name m) /\
                       forall t, method_return_type m = Some t -> identifier t)
             (_extract_methods content a b) /\
      Forall (fun p => identifier (property_name p))
             (_extract_properties content a b) /\
      Forall (fun c => identifier (case_name c))
             (_extract_enum_cases content a b)).
Proof.
  repeat split; apply List.Forall_forall; intros x Hx;
    apply in_map_iff in Hx as (m & <- & Hm); simpl;
    lazymatch goal with
    | |- identifier _ /\ _ => split
    | _ => idtac
    end;
    first
      [ eapply group_str_identifier; [ | | eassumption];
        [only_word | reflexivity]
      | intros t G; eapply group_opt_identifier; [ | eassumption | exact G];
        only_word ].
Qed.

Lemma split_pieces_all (P : ascii -> bool) (c : ascii) (s : string) :
  all_chars P s = true ->
  Forall (fun x => all_chars P x = true) (Py.split c s).
Proof.
  induction s as [|a s IH]; [repeat constructor|]. cbn [Py.split all_chars].
  rewrite andb_true_iff. intros [Ha H]. specialize (IH H).
  destruct (Ascii.eqb a c).
  - constructor; [reflexivity | exact IH].
  - destruct (Py.split c s) as [|h t].
    + repeat constructor. simpl. now rewrite Ha.
    + inversion IH as [|? ? Hh Ht]; subst. constructor; [|exact Ht].
      simpl. now rewrite Ha, Hh.
Qed.

Lemma group_names_listed (r : regex) (t : string) (m : rematch) (k : nat) :
  (forall r1, In r1 (subs r k) -> r1 = Plus (CNoneOf ["{"%char])) ->
  In m (finditer r t) -> Forall list_name (group_names k m).
Proof.
  intros S H. unfold group_names, group_opt.
  destruct (group k m) as [v|] eqn:G; [|constructor].
  destruct (Py.truthy v); [|constructor].
  destruct (group_text _ _ _ _ _ H G) as (r1 & R & [A _]).
  rewrite (S r1 R) in A.
  assert (B : lacks "{"%char v = true).
  { unfold lacks. eapply all_chars_impl; [|exact A].
    intros a. simpl. unfold mem. simpl. now rewrite orb_false_r. }
  apply List.Forall_forall. intros y Hy.
  apply in_map_iff in Hy as (x & <- & Hx).
  pose proof (split_pieces_lack ","%char v) as F1.
  pose proof (split_pieces_all _ ","%char v B) as F2.
  rewrite List.Forall_forall in F1, F2.
  repeat split.
  - apply strip_idem.
  - apply strip_all_chars. exact (F1 x Hx).
  - apply strip_all_chars. exact (F2 x Hx).
Qed.

(** X10. The interface names listed after [implements] of a class and after
    [extends] of an interface are returned trimmed and contain neither a
    comma nor an opening brace. *)
Theorem listed_names_are_trimmed (content : string) :
  Forall (fun c => Forall list_name (class_implements c))
         (classes (_parse_content content)) /\
  Forall (fun i => Forall list_name (interface_extends i))
         (interfaces (_parse_content content)).
Proof.
  split; apply List.Forall_forall; intros x Hx;
    apply in_map_iff in Hx as (m & <- & Hm); simpl;
    (eapply group_names_listed; [|eassumption]); simpl;
    intros ? [<-|[]]; reflexivity.
Qed.

(** ** The driver: which files are skipped *)

Lemma join_cons (sep x : string) (l : list string) :
  l <> [] -> Py.join sep (x :: l) = x +:+ sep +:+ Py.join sep l.
Proof. destruct l; [congruence | reflexivity]. Qed.

Lemma join_app (sep : string) (l1 l2 : list string) :
  l1 <> [] -> l2 <> [] ->
  Py.join sep (l1 ++ l2) = Py.join sep l1 +:+ sep +:+ Py.join sep l2.
Proof.
  intros N1 N2. induction l1 as [|x l1 IH]; [congruence|].
  destruct l1 as [|y l1].
  - simpl ((_ ++ _)%list). now rewrite join_cons.
  - change ((x :: y :: l1) ++ l2)%list with (x :: ((y :: l1) ++ l2))%list.
    rewrite (join_cons sep x ((y :: l1) ++ l2)) by discriminate.
    rewrite IH by discriminate.
    rewrite (join_cons sep x (y :: l1)) by discriminate.
    now rewrite !PyFacts.app_assoc.
Qed.

Lemma path_str_parts (a : bool) (l : list string) :
  l <> [] ->
  path_str (MkPath a l)
  = (if a then "/" else EmptyString) +:+ Py.join "/" l.
Proof. destruct l; [congruence | reflexivity]. Qed.

Lemma skip_by_substring (pat : string) (p : Path) :
  In pat skip_patterns -> has_substring pat (path_str p) ->
  _should_skip_file p = true.
Proof. intros I H. apply should_skip_spec. now exists pat. Qed.

(** The text of a path with a directory [dir] that is not its first
    relative component contains [/dir/]. *)
Lemma directory_in_path (a : bool) (pre post : list string)
    (dir name : string) :
  a = true \/ pre <> [] ->
  has_substring ("/" +:+ dir +:+ "/")
                (path_str (MkPath a (pre ++ dir :: post ++ [name]))).
Proof.
  intros H. rewrite path_str_parts by (now destruct pre).
  assert (N : post ++ [name] <> []) by (now destruct post).
  destruct pre as [|x pre].
  - destruct H as [->|H]; [|congruence]. simpl ((_ ++ _)%list).
    rewrite (join_cons "/" dir _ N).
    exists EmptyString, (Py.join "/" (post ++ [name])).
    cbn [String.append]. now rewrite !PyFacts.app_assoc.
  - rewrite (join_app "/" (x :: pre)) by discriminate.
    rewrite (join_cons "/" dir _ N).
    exists ((if a then "/" else EmptyString) +:+ Py.join "/" (x :: pre)),
           (Py.join "/" (post ++ [name])).
    now rewrite !PyFacts.app_assoc.
Qed.

(** The text of a path ends with [/name] unless the name is its only
    relative component. *)
Lemma name_in_path (a : bool) (pre : list string) (name : string) :
  a = true \/ pre <> [] ->
  has_substring ("/" +:+ name) (path_str (MkPath a (pre ++ [name]))).
Proof.
  intros H. rewrite path_str_parts by (now destruct pre).
  destruct pre as [|x pre].
  - destruct H as [->|H]; [|congruence].
    exists EmptyString, EmptyString. simpl. now rewrite PyFacts.app_nil_r.
  - rewrite (join_app "/" (x :: pre)) by discriminate.
    exists ((if a then "/" else EmptyString) +:+ Py.join "/" (x :: pre)),
           EmptyString.
    simpl (Py.join "/" [name]).
    now rewrite !PyFacts.app_assoc, PyFacts.app_nil_r.
Qed.

(** X11. A file is skipped exactly when the text of its path contains
    [/tests/], [/vendor/], [/Test.php] or [/test.php].  So a file below a
    directory [tests] or [vendor], and a file named [Test.php] or
    [test.php], is skipped, provided the directory or name is preceded by a
    slash in the text: it is not the first component of a relative path,
    and a relative [tests/A.php] is not skipped. *)
Theorem skip_rule :
  (forall p : Path,
      _should_skip_file p = true <->
      has_substring "/tests/" (path_str p) \/
      has_substring "/vendor/" (path_str p) \/
      has_substring "/Test.php" (path_str p) \/
      has_substring "/test.php" (path_str p)) /\
  (forall (a : bool) (pre post : list string) (dir name : string),
      dir = "tests" \/ dir = "vendor" -> a = true \/ pre <> [] ->
      _should_skip_file (MkPath a (pre ++ dir :: post ++ [name])) = true) /\
  (forall (a : bool) (pre : list string) (name : string),
      name = "Test.php" \/ name = "test.php" -> a = true \/ pre <> [] ->
      _should_skip_file (MkPath a (pre ++ [name])) = true) /\
  _should_skip_file (MkPath false ["tests"; "A.php"]) = false.
Proof.
  split; [|split; [|split]].
  - intros p. rewrite should_skip_spec. unfold excluded, skip_patterns.
    split.
    + intros (pat & I & H). simpl in I.
      destruct I as [<-|[<-|[<-|[<-|[]]]]]; tauto.
    + intros [H|[H|[H|H]]]; eexists; (split; [|exact H]); simpl; tauto.
  - intros a pre post dir name [-> | ->] H.
    + apply (skip_by_substring "/tests/"); [simpl; tauto|].
      exact (directory_in_path a pre post "tests" name H).
    + apply (skip_by_substring "/vendor/"); [simpl; tauto|].
      exact (directory_in_path a pre post "vendor" name H).
  - intros a pre name [-> | ->] H.
    + apply (skip_by_substring "/Test.php"); [simpl; tauto|].
      exact (name_in_path a pre "Test.php" H).
    + apply (skip_by_substring "/test.php"); [simpl; tauto|].
      exact (name_in_path a pre "test.php" H).
  - vm_compute. reflexivity.
Qed.

Lemma strip_parts_Some (base l r : list string) :
  strip_parts base l = Some r -> l = base ++ r.
Proof.
  revert l; induction base as [|b base IH]; intros l; simpl.
  - now intros [= ->].
  - destruct l as [|x l]; [discriminate|].
    destruct (String.eqb_spec b x) as [->|_]; [|discriminate].
    intros H. now rewrite (IH _ H).
Qed.

Lemma relative_to_Some (p base rel : Path) :
  relative_to p base = Some rel ->
  p = MkPath (absolute base) (parts base ++ parts rel) /\
  absolute rel = false.
Proof.
  unfold relative_to. destruct p as [a l]. simpl.
  destruct (Bool.eqb a (absolute base)) eqn:E; [|discriminate].
  apply eqb_prop in E. subst a.
  destruct (strip_parts (parts base) l) as [r|] eqn:S; [|discriminate].
  intros [= <-]. simpl. now rewrite (strip_parts_Some _ _ _ S).
Qed.

(** What the listing of the source root returns. *)
Lemma rglob_member (src_path : Path) (w : world) (f : Path) :
  In f (rglob_php src_path w) ->
  exists rel name front,
    relative_to f src_path = Some rel /\
    rev (parts rel) = name :: front /\
    Py.endswith ".php" name = true.
Proof.
  unfold rglob_php. rewrite filter_In. intros [_ H].
  destruct (relative_to f src_path) as [rel|]; [|discriminate].
  destruct (rev (parts rel)) as [|name front] eqn:E; [discriminate|].
  now exists rel, name, front.
Qed.






(** ** The driver: what happens to the files *)

Section FsRelated.

Variable R : gmap string string -> gmap string string -> Prop.
Hypothesis R_refl : forall m, R m m.
Hypothesis R_trans : forall m1 m2 m3, R m1 m2 -> R m2 m3 -> R m1 m3.

Variable fault : nat -> option exn.

Lemma related_ret {A : Type} (x : A) : fs_related R (mret x).
Proof. intros w. apply R_refl. Qed.

Lemma related_raise {A : Type} (e : exn) : fs_related R (@raise A e).
Proof. intros w. apply R_refl. Qed.

Lemma related_bind {A B : Type} (m : M A) (f : A -> M B) :
  fs_related R m -> (forall x, fs_related R (f x)) ->
  fs_related R (m ≫= f).
Proof.
  intros Hm Hf w. rewrite bind_run. specialize (Hm w).
  destruct (m w) as [[e|x] w1]; simpl in Hm; [exact Hm|].
  exact (R_trans _ _ _ Hm (Hf x w1)).
Qed.

Lemma related_print (line : string) : fs_related R (print line).
Proof. intros w. apply R_refl. Qed.

Lemma related_or_value_error {A : Type} (o : option A) (msg : string) :
  fs_related R (or_value_error o msg).
Proof. destruct o; [apply related_ret | apply related_raise]. Qed.

Lemma related_for_each {A : Type} (l : list A) (body : A -> M unit) :
  (forall x, In x l -> fs_related R (body x)) ->
  fs_related R (for_each l body).
Proof.
  induction l as [|x l IH]; intros H; simpl.
  - apply related_ret.
  - apply related_bind; [apply H; now left|].
    intros _. apply IH. intros y Hy. apply H. now right.
Qed.

Lemma related_read_file (p : Path) : fs_related R (read_file fault p).
Proof.
  intros w. unfold read_file, io. destruct (fault (clock w)); [apply R_refl|].
  cbn [fs tick]. destruct (fs w !! path_str p); apply R_refl.
Qed.

Lemma related_mkdir (p : Path) : fs_related R (mkdir_parents fault p).
Proof.
  intros w. unfold mkdir_parents, io.
  destruct (fault (clock w)); apply R_refl.
Qed.

Lemma related_write_file (src p : Path) (text : string) :
  (forall m, R m (<[path_str p := text]> m)) ->
  fs_related R (write_file fault src p text).
Proof.
  intros H w. unfold write_file, io.
  destruct (fault (clock w)); [apply R_refl|]. apply H.
Qed.

Variables src_path docs_path : Path.

(** Writing to the documentation path of any file is allowed by [R]. *)
Hypothesis R_write :
  forall (rel md : Path) (text : string) m,
    absolute rel = false -> with_suffix rel ".md" = Some md ->
    R m (<[path_str (joinpath docs_path md) := text]> m).

Lemma doc_path_of_cases (f : Path) (w : world) :
  (exists e, doc_path_of src_path docs_path f w = (inl e, w)) \/
  (exists rel md,
      relative_to f src_path = Some rel /\
      with_suffix rel ".md" = Some md /\
      doc_path_of src_path docs_path f w = (inr (joinpath docs_path md), w)).
Proof.
  unfold doc_path_of. rewrite bind_run.
  destruct (relative_to f src_path) as [rel|] eqn:Hr.
  - cbn [or_value_error mret M_ret]. rewrite bind_run.
    destruct (with_suffix rel ".md") as [md|] eqn:Hm.
    + right. now exists rel, md.
    + left. eexists. reflexivity.
  - left. eexists. reflexivity.
Qed.

Lemma related_generate_doc (text : string) (f : Path) :
  fs_related R (generate_doc fault src_path docs_path text f).
Proof.
  intros w. unfold generate_doc. rewrite bind_run.
  destruct (doc_path_of_cases f w) as [[e ->]|(rel & md & Hr & Hm & ->)];
    [apply R_refl|].
  apply relative_to_Some in Hr as [_ Hr].
  revert w. change (fs_related R
    (mkdir_parents fault (parent (joinpath docs_path md)) ;;
     write_file fault f (joinpath docs_path md) text)).
  apply related_bind; [apply related_mkdir|]. intros _.
  apply related_write_file. intros m. now apply (R_write rel).
Qed.

Lemma related_process_php_file (f : Path) :
  fs_related R (_process_php_file fault src_path docs_path f).
Proof.
  assert (B : fs_related R (process_body fault src_path docs_path f)).
  { unfold process_body, parse_file.
    apply related_bind.
    - apply related_bind; [apply related_read_file|].
      intros ?. apply related_ret.
    - intros p. repeat (apply related_bind; [|intros ?]);
        apply related_for_each; intros d _; apply related_generate_doc. }
  intros w. unfold _process_php_file. specialize (B w).
  now destruct (process_body fault src_path docs_path f w) as [[e|[]] w1].
Qed.

Lemma related_visit (f : Path) :
  fs_related R (visit fault src_path docs_path f).
Proof.
  unfold visit. destruct (_should_skip_file f); [apply related_ret|].
  apply related_bind; [apply related_or_value_error|intros rel].
  apply related_bind; [apply related_print|intros _].
  apply related_process_php_file.
Qed.

Lemma related_generate_documentation :
  fs_related R (generate_documentation fault src_path docs_path).
Proof.
  unfold generate_documentation.
  apply related_bind; [apply related_print|intros _].
  apply related_bind; [apply related_mkdir|intros _].
  apply related_bind; [intros w; apply R_refl|intros files].
  apply related_for_each. intros f _. apply related_visit.
Qed.

End FsRelated.

Lemma endswith_longer (pre s suf : string) :
  Py.endswith suf s = true -> Py.endswith suf (pre +:+ s) = true.
Proof.
  unfold Py.endswith. rewrite andb_true_iff, Nat.leb_le, String.eqb_eq.
  intros [L E]. rewrite length_app.
  replace (String.length pre + String.length s - String.length suf)
    with (String.length pre + (String.length s - String.length suf)) by lia.
  rewrite <- drop_drop, drop_app_length, E, String.eqb_refl, andb_true_r.
  apply Nat.leb_le. lia.
Qed.

Lemma join_last (sep : string) (l : list string) (x : string) :
  exists pre, Py.join sep (l ++ [x]) = pre +:+ x.
Proof.
  destruct l as [|y l].
  - now exists EmptyString.
  - rewrite join_app by discriminate.
    exists (Py.join sep (y :: l) +:+ sep). simpl (Py.join sep [x]).
    now rewrite PyFacts.app_assoc.
Qed.

(** The text of a path ends like its last component. *)
Lemma path_str_endswith (a : bool) (l : list string) (x suf : string) :
  Py.endswith suf x = true ->
  Py.endswith suf (path_str (MkPath a (l ++ [x]))) = true.
Proof.
  intros H. rewrite path_str_parts by (now destruct l).
  destruct (join_last "/" l x) as [pre ->].
  rewrite <- PyFacts.app_assoc. now apply endswith_longer.
Qed.

(** Every documentation path ends in [.md]. *)
Lemma doc_path_md (docs_path rel md : Path) :
  absolute rel = false -> with_suffix rel ".md" = Some md ->
  Py.endswith ".md" (path_str (joinpath docs_path md)) = true.
Proof.
  unfold with_suffix. intros A H.
  destruct (rev (parts rel)) as [|name front]; [discriminate|].
  injection H as <-. unfold joinpath. cbn [absolute parts]. rewrite A.
  rewrite List.app_assoc. apply path_str_endswith.
  unfold name_with_suffix. destruct (Py.truthy (suffix name));
    apply endswith_app.
Qed.

Lemma same_outside_md_write (docs_path rel md : Path) (text : string)
    (m : gmap string string) :
  absolute rel = false -> with_suffix rel ".md" = Some md ->
  same_outside_md m (<[path_str (joinpath docs_path md) := text]> m).
Proof.
  intros A H p Hp. apply lookup_insert_ne. intros E. subst p.
  rewrite (doc_path_md _ _ _ A H) in Hp. discriminate Hp.
Qed.

(** X13. Whatever the arguments, the tree and the failures, a run of
    [main] leaves every file whose path does not end in [.md] exactly as
    it was, the PHP sources among them: it creates, changes or truncates
    documentation files only. *)
Theorem main_only_writes_md
    (fault : nat -> option exn) (argv : list string) (w : world) (p : string) :
  Py.endswith ".md" p = false ->
  fs (snd (main fault argv w)) !! p = fs w !! p.
Proof.
  intros Hp. unfold main. destruct (negb (length argv =? 3)); [reflexivity|].
  rewrite bind_run.
  pose proof (related_generate_documentation same_outside_md
                (fun m q _ => eq_refl)
                (fun m1 m2 m3 H12 H23 q Hq =>
                   eq_trans (H23 q Hq) (H12 q Hq))
                fault (mk_path (nth 1 argv EmptyString))
                (mk_path (nth 2 argv EmptyString))
                (same_outside_md_write _) w p Hp) as G.
  destruct (generate_documentation fault (mk_path (nth 1 argv EmptyString))
              (mk_path (nth 2 argv EmptyString)) w) as [[e|[]] w1];
    exact G.
Qed.

Lemma main_only_writes_md_witness :
  fs (snd (main write_denied ["gen_api.py"; "src"; "docs"] demo_world))
  !! "src/A.php"
  = fs demo_world !! "src/A.php".
Proof.
  apply (main_only_writes_md write_denied ["gen_api.py"; "src"; "docs"]
                             demo_world "src/A.php").
  reflexivity.
Defined.

(** ** The driver: which files are read *)

Lemma read_attempts_app (l1 l2 : list event) :
  read_attempts (l1 ++ l2) = read_attempts l1 ++ read_attempts l2.
Proof.
  induction l1 as [|ev l1 IH]; [reflexivity|].
  destruct ev; simpl; now rewrite IH.
Qed.

Lemma no_read_attempts (evs : list event) :
  Forall no_read evs -> read_attempts evs = [].
Proof.
  induction 1 as [|ev evs H _ IH]; [reflexivity|].
  destruct ev; simpl in *; try contradiction; exact IH.
Qed.

Section Reads.

Variable fault : nat -> option exn.
Variables src_path docs_path : Path.

Lemma generate_doc_no_read (text : string) (f : Path) :
  emits_only no_read (generate_doc fault src_path docs_path text f).
Proof.
  unfold generate_doc, doc_path_of.
  repeat (apply emits_bind; [|intros ?]);
    try apply emits_or_value_error; try apply emits_ret.
  - apply emits_mkdir; simpl; tauto.
  - apply emits_write_file; simpl; tauto.
Qed.

Lemma renders_no_read (p : parsed) (f : Path) :
  emits_only no_read
    (for_each (classes p)
              (fun c => _generate_class_doc fault src_path docs_path c f) ;;
     for_each (interfaces p)
              (fun i => _generate_interface_doc fault src_path docs_path i f) ;;
     for_each (enums p)
              (fun e => _generate_enum_doc fault src_path docs_path e f)).
Proof.
  repeat (apply emits_bind; [|intros ?]);
    apply emits_for_each; intros d _; apply generate_doc_no_read.
Qed.

(** Processing a file attempts exactly one read, of that file. *)
Lemma process_reads (f : Path) (w : world) :
  exists evs,
    trace (snd (_process_php_file fault src_path docs_path f w))
    = trace w ++ evs /\
    read_attempts evs = [path_str f].
Proof.
  unfold _process_php_file, process_body, parse_file.
  rewrite !bind_run. unfold read_file at 1, io at 1.
  destruct (fault (clock w)) as [e|].
  - eexists [_; _]. split; [simpl; now rewrite <- List.app_assoc|reflexivity].
  - cbn [fs tick]. destruct (fs w !! path_str f) as [content|].
    + cbn [mret M_ret].
      destruct (renders_no_read (_parse_content content) f
                  (emit (EvRead (path_str f)) (tick w))) as (evs & E & F).
      destruct ((for_each (classes (_parse_content content))
                   (fun c => _generate_class_doc fault src_path docs_path c f) ;;
                 for_each (interfaces (_parse_content content))
                   (fun i => _generate_interface_doc fault src_path docs_path
                                                     i f) ;;
                 for_each (enums (_parse_content content))
                   (fun e => _generate_enum_doc fault src_path docs_path e f))
                  (emit (EvRead (path_str f)) (tick w))) as [[e|[]] w1];
        cbn [snd] in E.
      * exists (EvRead (path_str f) :: evs ++ [EvPrint (error_line f e)]).
        split.
        -- simpl. rewrite E. simpl. now rewrite <- !List.app_assoc.
        -- simpl. rewrite read_attempts_app, (no_read_attempts _ F).
           reflexivity.
      * exists (EvRead (path_str f) :: evs). split.
        -- simpl. rewrite E. simpl. now rewrite <- !List.app_assoc.
        -- simpl. now rewrite (no_read_attempts _ F).
    + eexists [_; _].
      split; [simpl; now rewrite <- List.app_assoc|reflexivity].
Qed.

Lemma visit_reads (f : Path) (w : world) :
  relative_to f src_path <> None ->
  exists evs,
    trace (snd (visit fault src_path docs_path f w)) = trace w ++ evs /\
    read_attempts evs
    = if _should_skip_file f then [] else [path_str f].
Proof.
  intros H. destruct (_should_skip_file f) eqn:S.
  - unfold visit. rewrite S. exists []. simpl. now rewrite List.app_nil_r.
  - destruct (relative_to f src_path) as [rel|] eqn:Hr; [|congruence].
    rewrite (visit_run fault src_path docs_path f rel w S Hr).
    destruct (process_reads f (emit (EvPrint ("Processing " +:+ path_str rel)) w))
      as (evs & E & F).
    exists (EvPrint ("Processing " +:+ path_str rel) :: evs). split.
    + rewrite E. simpl. now rewrite <- List.app_assoc.
    + exact F.
Qed.

Lemma loop_reads (l : list Path) (w : world) :
  (forall f, In f l -> relative_to f src_path <> None) ->
  exists evs,
    trace (snd (for_each l (visit fault src_path docs_path) w))
    = trace w ++ evs /\
    read_attempts evs
    = map path_str (List.filter (fun f => negb (_should_skip_file f)) l).
Proof.
  revert w. induction l as [|f l IH]; intros w H.
  - exists []. simpl. now rewrite List.app_nil_r.
  - cbn [for_each]. rewrite bind_run.
    destruct (visit_reads f w (H f (or_introl eq_refl))) as (ev1 & E1 & F1).
    pose proof (visit_inr fault src_path docs_path f w
                  (H f (or_introl eq_refl))) as V.
    destruct (visit fault src_path docs_path f w) as [[e|[]] w1];
      [discriminate V|]. cbn [snd] in E1.
    destruct (IH w1 (fun g Hg => H g (or_intror Hg))) as (ev2 & E2 & F2).
    exists (ev1 ++ ev2). split.
    + rewrite E2, E1. now rewrite List.app_assoc.
    + rewrite read_attempts_app, F1, F2. cbn [List.filter].
      now destruct (_should_skip_file f).
Qed.

(** X14. Once the documentation root could be created, a run attempts to
    read exactly the listed files that are not skipped, each one once and in
    the order of the listing; all of them are named [*.php]. *)
Theorem retained_files_read_once (w : world) :
  fault (clock w) = None ->
  exists evs,
    trace (snd (generate_documentation fault src_path docs_path w))
    = trace w ++ evs /\
    read_attempts evs
    = map path_str
          (List.filter (fun f => negb (_should_skip_file f))
                       (rglob_php src_path w)) /\
    Forall (fun p => Py.endswith ".php" p = true) (read_attempts evs).
Proof.
  intros F. unfold generate_documentation.
  rewrite bind_run. cbn [print]. rewrite bind_run.
  unfold mkdir_parents at 1, io at 1. cbn [emit clock]. rewrite F.
  rewrite bind_run. cbn [tick emit fs].
  match goal with
  | |- context [for_each ?l _ ?w1] =>
      destruct (loop_reads l w1 (fun f Hf => rglob_below src_path _ f Hf))
        as (evs & E & R)
  end.
  exists ([EvPrint ("Generating API documentation from "
                    +:+ path_str src_path +:+ " to " +:+ path_str docs_path);
           EvMkdir (path_str docs_path)] ++ evs).
  split; [|split].
  - rewrite E. cbn [trace emit tick]. now rewrite <- !List.app_assoc.
  - exact R.
  - cbn [read_attempts List.app]. rewrite R.
    apply List.Forall_forall. intros p Hp.
    apply in_map_iff in Hp as (f & <- & Hf). apply filter_In in Hf as [Hf _].
    destruct (rglob_member _ _ _ Hf) as (rel & name & front & Hr & Hrev & Hn).
    apply relative_to_Some in Hr as [-> _].
    assert (parts rel = rev front ++ [name]) as ->.
    { rewrite <- (rev_involutive (parts rel)), Hrev. reflexivity. }
    rewrite List.app_assoc. now apply path_str_endswith.
Qed.

End Reads.

Lemma retained_files_read_once_witness :
  exists evs,
    trace (snd (generate_documentation write_denied (mk_path "src")
                                       (mk_path "docs") demo_world))
    = trace demo_world ++ evs /\
    read_attempts evs
    = map path_str
          (List.filter (fun f => negb (_should_skip_file f))
                       (rglob_php (mk_path "src") demo_world)) /\
    Forall (fun p => Py.endswith ".php" p = true) (read_attempts evs).
Proof.
  apply (retained_files_read_once write_denied (mk_path "src")
                                  (mk_path "docs") demo_world).
  reflexivity.
Defined.

(** ** The driver: a run without failures *)

Lemma endswith_inv (suf s : string) :
  Py.endswith suf s = true -> exists pre, s = pre +:+ suf.
Proof.
  unfold Py.endswith. rewrite andb_true_iff, String.eqb_eq. intros [_ E].
  exists (Py.take (String.length s - String.length suf) s).
  transitivity (Py.take (String.length s - String.length suf) s
                +:+ Py.drop (String.length s - String.length suf) s).
  - symmetry. apply take_drop.
  - now rewrite E.
Qed.

Lemma php_is_not_md (p : string) :
  Py.endswith ".php" p = true -> Py.endswith ".md" p = false.
Proof.
  intros H. apply endswith_inv in H as [pre ->]. unfold Py.endswith.
  rewrite length_app.
  replace (String.length pre + String.length ".php" - String.length ".md")
    with (String.length pre + 1) by (simpl; lia).
  rewrite <- drop_drop, drop_app_length. apply andb_false_r.
Qed.

Lemma files_remain_write (k v : string) (m : gmap string string) :
  files_remain m (<[k := v]> m).
Proof.
  intros p H. destruct (decide (k = p)) as [->|N].
  - rewrite lookup_insert_eq. eauto.
  - now rewrite lookup_insert_ne.
Qed.

Lemma for_each_app {A : Type} (l1 l2 : list A) (body : A -> M unit)
    (w : world) :
  for_each (l1 ++ l2) body w = (for_each l1 body ;; for_each l2 body) w.
Proof.
  revert w. induction l1 as [|x l1 IH]; intros w; [reflexivity|].
  simpl ((_ ++ _)%list). cbn [for_each]. rewrite !bind_run.
  destruct (body x w) as [[e|[]] w1]; [reflexivity|].
  rewrite IH. now rewrite bind_run.
Qed.

Section FaultFree.

Variables src_path docs_path : Path.

Lemma generate_doc_runs (text : string) (f rel md : Path) (w : world) :
  relative_to f src_path = Some rel -> with_suffix rel ".md" = Some md ->
  fst (generate_doc no_fault src_path docs_path text f w) = inr tt.
Proof.
  intros Hr Hm. unfold generate_doc.
  rewrite bind_run, (doc_path_of_run _ _ _ _ _ _ Hr Hm). reflexivity.
Qed.

Lemma process_body_runs (f rel md : Path) (content : string) (w : world) :
  relative_to f src_path = Some rel -> with_suffix rel ".md" = Some md ->
  fs w !! path_str f = Some content ->
  exists w',
    process_body no_fault src_path docs_path f w = (inr tt, w') /\
    fs w' !! path_str (joinpath docs_path md)
    = match last (renders (_parse_content content)) with
      | Some text => Some text
      | None => fs w !! path_str (joinpath docs_path md)
      end.
Proof.
  intros Hr Hm Hfs. unfold process_body, parse_file. rewrite !bind_run.
  unfold read_file at 1, io at 1. cbn [no_fault fs tick]. rewrite Hfs.
  cbn [mret M_ret]. rewrite bind_run.
  set (w0 := emit (EvRead (path_str f)) (tick w)).
  assert (G : forall (A : Type) (render : A -> string) (l : list A) w1,
             fst (for_each l (fun x => generate_doc no_fault src_path docs_path
                                                    (render x) f) w1)
             = inr tt).
  { intros A render l w1. apply for_each_inr. intros x w2 _.
    exact (generate_doc_runs _ _ _ _ _ Hr Hm). }
  assert (G1 : fst (for_each (classes (_parse_content content))
                      (fun c => _generate_class_doc no_fault src_path
                                                    docs_path c f) w0)
               = inr tt) by apply (G _ class_doc).
  destruct (for_each (classes (_parse_content content))
              (fun c => _generate_class_doc no_fault src_path docs_path c f) w0)
    as [[e|[]] w1] eqn:E1; [discriminate G1|].
  rewrite bind_run.
  assert (G2 : fst (for_each (interfaces (_parse_content content))
                      (fun i => _generate_interface_doc no_fault src_path
                                                        docs_path i f) w1)
               = inr tt) by apply (G _ interface_doc).
  destruct (for_each (interfaces (_parse_content content))
              (fun i => _generate_interface_doc no_fault src_path docs_path i f)
              w1)
    as [[e|[]] w2] eqn:E2; [discriminate G2|].
  assert (G3 : fst (for_each (enums (_parse_content content))
                      (fun e => _generate_enum_doc no_fault src_path
                                                   docs_path e f) w2)
               = inr tt) by apply (G _ enum_doc).
  destruct (for_each (enums (_parse_content content))
              (fun e => _generate_enum_doc no_fault src_path docs_path e f) w2)
    as [[e|[]] w3] eqn:E3; [discriminate G3|].
  exists w3. split; [reflexivity|].
  destruct (for_each_docs _ _ _ class_doc _ _ _ _ _ _ Hr Hm E1)
    as (ev1 & _ & _ & F1).
  destruct (for_each_docs _ _ _ interface_doc _ _ _ _ _ _ Hr Hm E2)
    as (ev2 & _ & _ & F2).
  destruct (for_each_docs _ _ _ enum_doc _ _ _ _ _ _ Hr Hm E3)
    as (ev3 & _ & _ & F3).
  unfold renders. rewrite !last_app, F3, F2, F1.
  destruct (last (map enum_doc (enums (_parse_content content))));
    [reflexivity|].
  destruct (last (map interface_doc (interfaces (_parse_content content))));
    [reflexivity|].
  destruct (last (map class_doc (classes (_parse_content content))));
    reflexivity.
Qed.

Lemma loop_keeps_sources (l : list Path) (w : world) (p : string) :
  Py.endswith ".md" p = false ->
  fs (snd (for_each l (visit no_fault src_path docs_path) w)) !! p
  = fs w !! p.
Proof.
  intros Hp.
  apply (related_for_each same_outside_md (fun m q _ => eq_refl)
           (fun m1 m2 m3 H12 H23 q Hq => eq_trans (H23 q Hq) (H12 q Hq))
           l (visit no_fault src_path docs_path)); [|exact Hp].
  intros f _.
  apply (related_visit same_outside_md (fun m q _ => eq_refl)
           (fun m1 m2 m3 H12 H23 q Hq => eq_trans (H23 q Hq) (H12 q Hq))
           no_fault src_path docs_path (same_outside_md_write _)).
Qed.

Lemma loop_keeps_files (l : list Path) (w : world) (p : string) :
  is_Some (fs w !! p) ->
  is_Some (fs (snd (for_each l (visit no_fault src_path docs_path) w)) !! p).
Proof.
  apply (related_for_each files_remain (fun m q H => H)
           (fun m1 m2 m3 H12 H23 q Hq => H23 q (H12 q Hq))
           l (visit no_fault src_path docs_path)).
  intros f _.
  apply (related_visit files_remain (fun m q H => H)
           (fun m1 m2 m3 H12 H23 q Hq => H23 q (H12 q Hq))
           no_fault src_path docs_path).
  intros rel md text m _ _. apply files_remain_write.
Qed.

(** X15. In a run without I/O failures every listed file that is not
    skipped and holds at least one declaration has its documentation file,
    at the documentation root joined with its relative path with the
    suffix [.md], on disk at the end. *)
Theorem fault_free_run_documents_every_file
    (w : world) (f : Path) (content : string) :
  In f (rglob_php src_path w) ->
  _should_skip_file f = false ->
  fs w !! path_str f = Some content ->
  renders (_parse_content content) <> [] ->
  exists rel md,
    relative_to f src_path = Some rel /\
    with_suffix rel ".md" = Some md /\
    is_Some (fs (snd (generate_documentation no_fault src_path docs_path w))
             !! path_str (joinpath docs_path md)).
Proof.
  intros Hin Hskip Hfs Hdecl.
  destruct (rglob_member _ _ _ Hin) as (rel & name & front & Hr & Hrev & Hn).
  assert (Hm : exists md, with_suffix rel ".md" = Some md).
  { unfold with_suffix. rewrite Hrev. eauto. }
  destruct Hm as [md Hm]. exists rel, md. split; [exact Hr|].
  split; [exact Hm|].
  assert (Hphp : Py.endswith ".md" (path_str f) = false).
  { apply php_is_not_md. pose proof Hr as Hr'.
    apply relative_to_Some in Hr' as [-> _].
    assert (parts rel = rev front ++ [name]) as ->.
    { rewrite <- (rev_involutive (parts rel)), Hrev. reflexivity. }
    rewrite List.app_assoc. now apply path_str_endswith. }
  unfold generate_documentation.
  rewrite bind_run. cbn [print]. rewrite bind_run.
  unfold mkdir_parents at 1, io at 1. cbn [no_fault]. rewrite bind_run.
  cbn [tick emit fs].
  set (w0 := emit (EvMkdir (path_str docs_path))
               (tick (emit (EvPrint ("Generating API documentation from "
                       +:+ path_str src_path +:+ " to "
                       +:+ path_str docs_path)) w))).
  change (rglob_php src_path w0) with (rglob_php src_path w).
  destruct (in_split _ _ Hin) as (l1 & l2 & Hsplit).
  rewrite Hsplit, for_each_app, bind_run.
  pose proof (for_each_inr l1 (visit no_fault src_path docs_path) w0) as V1.
  pose proof (loop_keeps_sources l1 w0 (path_str f) Hphp) as K1.
  destruct (for_each l1 (visit no_fault src_path docs_path) w0)
    as [[e|[]] w1].
  { exfalso. assert (@inl exn unit e = inr tt); [|discriminate].
    apply V1. intros x w2 Hx. apply visit_inr. apply rglob_below with (w := w).
    rewrite Hsplit. apply in_or_app. now left. }
  clear V1. cbn [snd] in K1. cbn [for_each]. rewrite bind_run.
  rewrite (visit_run _ _ _ _ _ _ Hskip Hr).
  set (w1' := emit (EvPrint ("Processing " +:+ path_str rel)) w1).
  assert (Hfs1 : fs w1' !! path_str f = Some content).
  { cbn [w1' emit fs]. rewrite K1. exact Hfs. }
  destruct (process_body_runs f rel md content w1' Hr Hm Hfs1)
    as (w2 & Hrun & Hout).
  unfold _process_php_file. rewrite Hrun.
  apply loop_keeps_files. rewrite Hout.
  destruct (last (renders (_parse_content content))) as [text|] eqn:L;
    [eauto|]. apply last_None in L. contradiction.
Qed.

End FaultFree.

Lemma fault_free_run_documents_every_file_witness :
  exists rel md,
    relative_to (mk_path "src/A.php") (mk_path "src") = Some rel /\
    with_suffix rel ".md" = Some md /\
    is_Some (fs (snd (generate_documentation no_fault (mk_path "src")
                                             (mk_path "docs") demo_world))
             !! path_str (joinpath (mk_path "docs") md)).
Proof.
  apply (fault_free_run_documents_every_file
           (mk_path "src") (mk_path "docs") demo_world (mk_path "src/A.php")
           "/** Doc A */ class A extends B { } interface I { } ").
  - vm_compute. tauto.
  - vm_compute. reflexivity.
  - vm_compute. reflexivity.
  - vm_compute. discriminate.
Defined.

Lemma generate_documentation_aborts
    (fault : nat -> option exn) (src_path docs_path : Path) (w : world)
    (e : exn) :
  fault (clock w) = Some e ->
  generate_documentation fault src_path docs_path w
  = (inl e,
     emit (EvMkdirFailed (path_str docs_path) e)
          (tick (emit (EvPrint ("Generating API documentation from "
                                +:+ path_str src_path +:+ " to "
                                +:+ path_str docs_path)) w))).
Proof.
  intros F. unfold generate_documentation.
  rewrite bind_run. cbn [print]. rewrite bind_run.
  unfold mkdir_parents at 1, io at 1. cbn [emit clock]. now rewrite F.
Qed.

(** X16. When the documentation root cannot be created the exception is
    not caught: the run stops right there with exit status 1, after its
    first message and before any file is listed, read or written. *)
Theorem unwritable_root_aborts
    (fault : nat -> option exn) (argv : list string) (w : world) (e : exn) :
  length argv = 3 -> fault (clock w) = Some e ->
  fst (main fault argv w) = 1 /\
  fs (snd (main fault argv w)) = fs w /\
  exists line,
    trace (snd (main fault argv w))
    = trace w ++ [EvPrint line;
                  EvMkdirFailed (path_str (mk_path (nth 2 argv EmptyString))) e].
Proof.
  intros L F. unfold main. rewrite L. cbn [Nat.eqb negb].
  rewrite bind_run, (generate_documentation_aborts _ _ _ _ _ F).
  cbn [fst snd fs tick emit trace]. repeat split.
  eexists. now rewrite <- List.app_assoc.
Qed.

Lemma unwritable_root_aborts_witness :
  fst (main (fun _ => Some (OSError "[Errno 13] Permission denied: 'docs'"))
            ["gen_api.py"; "src"; "docs"] demo_world) = 1 /\
  fs (snd (main (fun _ => Some (OSError "[Errno 13] Permission denied: 'docs'"))
                ["gen_api.py"; "src"; "docs"] demo_world))
  = fs demo_world /\
  exists line,
    trace (snd (main (fun _ => Some (OSError
                                       "[Errno 13] Permission denied: 'docs'"))
                     ["gen_api.py"; "src"; "docs"] demo_world))
    = trace demo_world
      ++ [EvPrint line;
          EvMkdirFailed
            (path_str (mk_path (nth 2 ["gen_api.py"; "src"; "docs"]
                                    EmptyString)))
            (OSError "[Errno 13] Permission denied: 'docs'")].
Proof.
  apply (unwritable_root_aborts
           (fun _ => Some (OSError "[Errno 13] Permission denied: 'docs'"))
           ["gen_api.py"; "src"; "docs"] demo_world
           (OSError "[Errno 13] Permission denied: 'docs'"));
    reflexivity.
Defined.
